(** * tube-auto-publisher: the publishing pipeline, embedded and verified

    A shallow embedding of the parts of the repository that decide the
    pipeline's behaviour:

    - [utils/drive-downloader.js]: identifier extraction and the
      multi-candidate download loop;
    - [2downloadvideo.js]: the identifier check run before a download;
    - [5syncgdrive.js]: reconciliation of the Drive folder against the
      Notion database;
    - the two modules that write to a record, [utils/update-notion.js]
      (with [markAsUploaded] and [markAsError], used by the upload script)
      and the module of [updateNotionPage], [updateNotionAfterUpload] and
      [cleanupOldErrors]: the writes that move a record to [Uploaded],
      [Error] or back to [Pending];
    - [1fetchvideos.js]: selection of the next pending record;
    - [run-pipeline.js]: the orchestration of the scripts.

    Conventions.  A JavaScript string is a [string] (a sequence of
    characters); only ASCII characters are inspected by the functions
    below.  A thrown [Error] is its message.  A JavaScript number is an
    exact rational ([Q]); an instant is the number of milliseconds since
    the epoch ([Z]).  An object used as a dictionary is a [gmap], a [Set]
    is a [gset]. *)

From Stdlib Require Import ZArith QArith Qround.
From stdpp Require Import base option list gmap strings pretty.
From Stdlib Require Import Ascii String.

Open Scope string_scope.
Open Scope list_scope.

(** ** Results of fallible code *)

Inductive result (A : Type) : Type :=
| Ok (value : A)
| Throw (message : string).
Arguments Ok {A} value.
Arguments Throw {A} message.

Definition is_ok {A} (r : result A) : bool :=
  match r with Ok _ => true | Throw _ => false end.

(** ** JavaScript strings *)

Module Js.

Definition eqb_ascii (a b : ascii) : bool := Ascii.eqb a b.

Fixpoint forall_chars (p : ascii -> bool) (s : string) : bool :=
  match s with
  | EmptyString => true
  | String c rest => p c && forall_chars p rest
  end.

Fixpoint take_while (p : ascii -> bool) (s : string) : string :=
  match s with
  | EmptyString => EmptyString
  | String c rest => if p c then String c (take_while p rest) else EmptyString
  end.

Fixpoint drop_while (p : ascii -> bool) (s : string) : string :=
  match s with
  | EmptyString => EmptyString
  | String c rest => if p c then drop_while p rest else s
  end.

Fixpoint rev_onto (s acc : string) : string :=
  match s with
  | EmptyString => acc
  | String c rest => rev_onto rest (String c acc)
  end.

Definition rev (s : string) : string := rev_onto s EmptyString.

(** [truthy s]: a string is truthy unless it is empty. *)
Definition truthy (s : string) : bool :=
  match s with EmptyString => false | String _ _ => true end.

(** [s.startsWith(p)], returning what follows the prefix. *)
Fixpoint strip_prefix (p s : string) : option string :=
  match p, s with
  | EmptyString, _ => Some s
  | String a p', String b s' => if eqb_ascii a b then strip_prefix p' s' else None
  | String _ _, EmptyString => None
  end.

(** [s.includes(needle)] *)
Fixpoint includes (needle s : string) : bool :=
  match strip_prefix needle s with
  | Some _ => true
  | None =>
      match s with
      | EmptyString => false
      | String _ rest => includes needle rest
      end
  end.

(** [s.substring(0, n)] *)
Fixpoint substring0 (n : nat) (s : string) : string :=
  match n, s with
  | O, _ => EmptyString
  | S n', String c rest => String c (substring0 n' rest)
  | S _, EmptyString => EmptyString
  end.

Definition is_upper (c : ascii) : bool :=
  let n := nat_of_ascii c in (65 <=? n)%nat && (n <=? 90)%nat.
Definition is_lower (c : ascii) : bool :=
  let n := nat_of_ascii c in (97 <=? n)%nat && (n <=? 122)%nat.
Definition is_digit (c : ascii) : bool :=
  let n := nat_of_ascii c in (48 <=? n)%nat && (n <=? 57)%nat.

Definition lower_char (c : ascii) : ascii :=
  if is_upper c then ascii_of_nat (nat_of_ascii c + 32) else c.
Definition upper_char (c : ascii) : ascii :=
  if is_lower c then ascii_of_nat (nat_of_ascii c - 32) else c.

Fixpoint map_chars (f : ascii -> ascii) (s : string) : string :=
  match s with
  | EmptyString => EmptyString
  | String c rest => String (f c) (map_chars f rest)
  end.

(** [s.toLowerCase()] and [s.toUpperCase()], on the ASCII letters. *)
Definition toLowerCase (s : string) : string := map_chars lower_char s.
Definition toUpperCase (s : string) : string := map_chars upper_char s.

(** White space removed by [trim], of the ASCII characters: tab, line
    feed, vertical tab, form feed, carriage return and space. *)
Definition is_space (c : ascii) : bool :=
  let n := nat_of_ascii c in ((9 <=? n)%nat && (n <=? 13)%nat) || (n =? 32)%nat.

(** [s.trim()] *)
Definition trim (s : string) : string :=
  rev (drop_while is_space (rev (drop_while is_space s))).

(** The character class [[a-zA-Z0-9-_]] (the same set as [[a-zA-Z0-9_-]]). *)
Definition is_id_char (c : ascii) : bool :=
  is_lower c || is_upper c || is_digit c || eqb_ascii c "-" || eqb_ascii c "_".

(** [s.match(/LIT([a-zA-Z0-9-_]+)/)]: the capture group of the leftmost
    match of the literal [lit] followed by a non-empty, maximal run of
    identifier characters. *)
Fixpoint capture_after (lit s : string) : option string :=
  let here :=
    match strip_prefix lit s with
    | Some tail =>
        let run := take_while is_id_char tail in
        if truthy run then Some run else None
    | None => None
    end in
  match here with
  | Some run => Some run
  | None =>
      match s with
      | EmptyString => None
      | String _ rest => capture_after lit rest
      end
  end.

(** [s.match(/^([a-zA-Z0-9-_]+)$/)] *)
Definition capture_whole (s : string) : option string :=
  if truthy s && forall_chars is_id_char s then Some s else None.

(** [s.replace(/\.[^/.]+$/, '')]: the leftmost dot that is followed, up to
    the end of the string, by one or more characters other than [/] and
    [.] is removed together with what follows it. *)
Fixpoint strip_extension (s : string) : string :=
  match s with
  | EmptyString => EmptyString
  | String c rest =>
      if eqb_ascii c "." && truthy rest
         && forall_chars (fun x => negb (eqb_ascii x "/" || eqb_ascii x ".")) rest
      then EmptyString
      else String c (strip_extension rest)
  end.

(** [s.charAt(0).toUpperCase() + s.slice(1)] *)
Definition capitalize (s : string) : string :=
  match s with
  | EmptyString => EmptyString
  | String c rest => String (upper_char c) rest
  end.

Definition digit_value (c : ascii) : option Z :=
  if is_digit c then Some (Z.of_nat (nat_of_ascii c) - 48)%Z
  else if is_lower c then Some (Z.of_nat (nat_of_ascii c) - 87)%Z
  else if is_upper c then Some (Z.of_nat (nat_of_ascii c) - 55)%Z
  else None.

(** The value of the longest prefix of [s] made of digits of the [radix];
    [None] when there is no such digit. *)
Fixpoint digits_prefix (radix : Z) (s : string) (acc : option Z) : option Z :=
  match s with
  | EmptyString => acc
  | String c rest =>
      match digit_value c with
      | Some d =>
          if (d <? radix)%Z
          then digits_prefix radix rest (Some (default 0%Z acc * radix + d)%Z)
          else acc
      | None => acc
      end
  end.

(** [parseInt(s)]: white space is skipped, a sign is read, a [0x] prefix
    selects radix 16; [None] stands for [NaN]. *)
Definition parseInt (s : string) : option Z :=
  let s := drop_while is_space s in
  let '(negative, s) :=
    match s with
    | String "-" rest => (true, rest)
    | String "+" rest => (false, rest)
    | _ => (false, s)
    end in
  let magnitude :=
    match s with
    | String "0" (String "x" rest) => digits_prefix 16 rest None
    | String "0" (String "X" rest) => digits_prefix 16 rest None
    | _ => digits_prefix 10 s None
    end in
  match magnitude with
  | Some m => Some (if negative then (- m)%Z else m)
  | None => None
  end.

Definition is_Some_b {A} (x : option A) : bool :=
  match x with Some _ => true | None => false end.

(** [parts.join(sep)] *)
Fixpoint join (sep : string) (parts : list string) : string :=
  match parts with
  | [] => EmptyString
  | [p] => p
  | p :: rest => p +:+ sep +:+ join sep rest
  end.

End Js.

(** ** utils/drive-downloader.js: identifier extraction *)

Module DriveDownloader.

(** The five patterns of [extractFileIdFromUrl], in the order they are
    tried. *)
Definition patterns : list (string -> option string) :=
  [ Js.capture_after "/file/d/";
    Js.capture_after "/open?id=";
    Js.capture_after "/d/";
    Js.capture_after "id=";
    Js.capture_whole ].

Fixpoint first_match (ps : list (string -> option string)) (url : string) : option string :=
  match ps with
  | [] => None
  | p :: rest =>
      match p url with
      | Some id => Some id
      | None => first_match rest url
      end
  end.

Definition extractFileIdFromUrl (url : string) : result string :=
  match first_match patterns url with
  | Some id => Ok id
  | None => Throw ("❌ Não foi possível extrair ID do arquivo da URL: " +:+ url)
  end.

(** *** The download loop

    What the network and the local disk do is given from outside: [net url]
    is what a GET of [url] yields.  The disk is a map from paths to file
    sizes. *)

(** How the body of a response ends: the write stream finishes, and the
    file is then found on disk with [on_disk] bytes ([None]: it is not
    there); or one of the two streams raises an error, leaving [partial]
    bytes behind ([None]: no file was created). *)
Inductive stream_end :=
| Finished (on_disk : option N)
| Broken (message : string) (partial : option N).

Record response := {
  status : Z;
  content_type : option string;
  content_length : option string;
  body : stream_end }.

(** The request itself throws (time-out, refused status), or answers. *)
Inductive attempt :=
| RequestError (message : string)
| Response (r : response).

(** The object returned on success.  The display string
    [fileSizeFormatted] is left out. *)
Record payload := {
  filePath : string;
  fileName : string;
  fileSize : N;
  mimeType : string }.

(** What one run did: its result, the disk afterwards and the URLs it
    requested, in order. *)
Record run := {
  outcome : result payload;
  disk : gmap string N;
  requested : list string }.

Definition downloadUrls (fileId : string) : list string :=
  [ "https://drive.google.com/uc?export=download&id=" +:+ fileId;
    "https://docs.google.com/uc?export=download&id=" +:+ fileId;
    "https://drive.usercontent.google.com/download?id=" +:+ fileId +:+ "&export=download";
    "https://drive.google.com/uc?id=" +:+ fileId +:+ "&export=download" ].

(** The three ways one pass through the loop body ends: [continue] on a
    markup page, an exception, or the [return]. *)
Inductive attempt_result :=
| Markup
| Failure (message : string)
| Saved (size : N).

Section Download.

Variable tempDir : string.
Variable net : string -> attempt.

(** The [try] block of the loop body, for one URL. *)
Definition attemptUrl (path url : string) (files : gmap string N)
  : attempt_result * gmap string N :=
  match net url with
  | RequestError e => (Failure e, files)
  | Response r =>
      let contentType := default EmptyString (content_type r) in
      if Js.includes "text/html" contentType then (Markup, files)
      else
        match body r with
        | Broken e partial =>
            (Failure e,
             match partial with Some n => <[path := n]> files | None => files end)
        | Finished None =>
            (Failure "❌ Arquivo não foi criado após download", delete path files)
        | Finished (Some finalSize) =>
            if (finalSize =? 0)%N
            then (Failure "❌ Arquivo baixado está vazio", delete path files)
            else (Saved finalSize, <[path := finalSize]> files)
        end
  end.

(** The [for] loop over the candidate URLs; [log] holds the URLs requested
    so far.  After a failure the partial file is removed, and the error is
    rethrown only when the candidate was the last one. *)
Fixpoint tryUrls (path name : string) (urls : list string)
    (files : gmap string N) (log : list string) : run :=
  match urls with
  | [] =>
      {| outcome := Throw "❌ Todas as URLs de download falharam";
         disk := files; requested := log |}
  | url :: rest =>
      match attemptUrl path url files with
      | (Markup, files') => tryUrls path name rest files' (log ++ [url])
      | (Failure e, files') =>
          let cleaned := delete path files' in
          match rest with
          | [] => {| outcome := Throw e; disk := cleaned; requested := log ++ [url] |}
          | _ :: _ => tryUrls path name rest cleaned (log ++ [url])
          end
      | (Saved finalSize, files') =>
          {| outcome := Ok {| filePath := path; fileName := name;
                              fileSize := finalSize; mimeType := "video/mp4" |};
             disk := files'; requested := log ++ [url] |}
      end
  end.

Definition downloadFromDrive (driveUrl : string) (files : gmap string N) : run :=
  match extractFileIdFromUrl driveUrl with
  | Throw e => {| outcome := Throw e; disk := files; requested := [] |}
  | Ok fileId =>
      let name := "video_" +:+ fileId +:+ ".mp4" in
      let path := tempDir +:+ "/" +:+ name in
      tryUrls path name (downloadUrls fileId) (delete path files) []
  end.

End Download.

(** A candidate answers with a markup page. *)
Definition is_markup (a : attempt) : bool :=
  match a with
  | Response r => Js.includes "text/html" (default EmptyString (content_type r))
  | RequestError _ => false
  end.

(** A candidate answers with something else than markup and its body
    streams to a file of [n] bytes. *)
Definition streams (a : attempt) (n : N) : bool :=
  match a with
  | Response r =>
      negb (Js.includes "text/html" (default EmptyString (content_type r)))
      && match body r with
         | Finished (Some m) => (m =? n)%N
         | _ => false
         end
  | RequestError _ => false
  end.

(** The error a candidate raises, if it raises one. *)
Definition candidate_error (a : attempt) : option string :=
  match a with
  | RequestError e => Some e
  | Response r =>
      if Js.includes "text/html" (default EmptyString (content_type r)) then None
      else
        match body r with
        | Broken e _ => Some e
        | Finished None => Some "❌ Arquivo não foi criado após download"
        | Finished (Some n) =>
            if (n =? 0)%N then Some "❌ Arquivo baixado está vazio" else None
        end
  end.

(** A candidate that does not deliver: it answers with markup or raises
    an error. *)
Definition fails (a : attempt) : bool :=
  is_markup a || Js.is_Some_b (candidate_error a).

(** A run that throws the error raised by the last of its candidates. *)
Definition throws_last_candidate_error (net : string -> attempt) (urls : list string)
    (r : run) : Prop :=
  exists u e, last urls = Some u /\ candidate_error (net u) = Some e
              /\ outcome r = Throw e.

(** The message a run ends with when no candidate delivers: the error of
    the last candidate when it raised one, the fixed message otherwise. *)
Definition exhausted_message (net : string -> attempt) (urls : list string) : string :=
  match last urls with
  | Some u => default "❌ Todas as URLs de download falharam" (candidate_error (net u))
  | None => "❌ Todas as URLs de download falharam"
  end.

End DriveDownloader.


(** ** 2downloadvideo.js: the identifier check *)

Module DownloadVideo.

Definition validIdPattern (s : string) : bool :=
  Js.truthy s && Js.forall_chars Js.is_id_char s.

Definition extractAndValidateDriveId (driveLink : string) : result string :=
  let body :=
    match DriveDownloader.extractFileIdFromUrl driveLink with
    | Throw e => Throw e
    | Ok fileId =>
        if negb (Js.truthy fileId) || (String.length fileId <? 20)%nat
        then Throw "❌ ID do arquivo parece inválido"
        else if negb (validIdPattern fileId)
        then Throw "❌ ID do arquivo contém caracteres inválidos"
        else Ok fileId
    end in
  match body with
  | Ok fileId => Ok fileId
  | Throw e => Throw ("Falha ao extrair ID do Drive: " +:+ e)
  end.

End DownloadVideo.

(** ** The Notion database

    The record store the scripts talk to through [@notionhq/client].  A page
    carries a dictionary of typed properties.  The database lists its pages
    in a fixed order; a new page is listed last. *)

Module Notion.

Inductive property :=
| Title (segments : list string)
| RichText (segments : list string)
| Url (url : string)
| Select (name : string)
| Number (n : Q)
| Date (start : Z).

Record page := {
  page_id : string;
  properties : gmap string property;
  created_time : Z;
  last_edited_time : Z }.

(** [page.properties[key]?.title?.[0]?.plain_text] *)
Definition first_title (key : string) (p : page) : option string :=
  match properties p !! key with
  | Some (Title (s :: _)) => Some s
  | _ => None
  end.

(** [page.properties[key]?.url] *)
Definition url_of (key : string) (p : page) : option string :=
  match properties p !! key with
  | Some (Url u) => Some u
  | _ => None
  end.

(** [page.properties[key]?.select?.name] *)
Definition select_of (key : string) (p : page) : option string :=
  match properties p !! key with
  | Some (Select n) => Some n
  | _ => None
  end.

(** [page.properties[key]?.number] *)
Definition number_of (key : string) (p : page) : option Q :=
  match properties p !! key with
  | Some (Number n) => Some n
  | _ => None
  end.

(** [page.properties[key]?.date?.start] *)
Definition date_of (key : string) (p : page) : option Z :=
  match properties p !! key with
  | Some (Date d) => Some d
  | _ => None
  end.

(** The segments of a title or rich-text property. *)
Definition segments_of (key : string) (p : page) : option (list string) :=
  match properties p !! key with
  | Some (Title l) => Some l
  | Some (RichText l) => Some l
  | _ => None
  end.

(** The filters the scripts send with a query. *)
Inductive filter :=
| SelectEquals (property : string) (name : string)
| DateBefore (property : string) (instant : Z)
| And (f g : filter).

Fixpoint matches (f : filter) (p : page) : bool :=
  match f with
  | SelectEquals key name =>
      match select_of key p with
      | Some n => String.eqb n name
      | None => false
      end
  | DateBefore key instant =>
      match date_of key p with
      | Some d => (d <? instant)%Z
      | None => false
      end
  | And f g => matches f p && matches g p
  end.

(** The state of the service: the pages, the comments left on pages, the
    clock, the counter that names new pages, and [faults], which says for
    each coming request whether the service fails it ([true]); once the
    list is used up every request is served. *)
Record state := {
  db : list page;
  comments : list (string * list string);
  faults : list bool;
  now : Z;
  next_id : nat }.

Definition with_db (s : state) (pages : list page) : state :=
  {| db := pages; comments := comments s; faults := faults s;
     now := now s; next_id := next_id s |}.

(** Code that talks to the service: a state transformer that returns or
    throws. *)
Definition M (A : Type) : Type := state -> result A * state.

Definition ret {A} (a : A) : M A := fun s => (Ok a, s).
Definition throw {A} (e : string) : M A := fun s => (Throw e, s).
Definition bind {A B} (m : M A) (k : A -> M B) : M B :=
  fun s =>
    match m s with
    | (Ok a, s') => k a s'
    | (Throw e, s') => (Throw e, s')
    end.

(** [try { body } catch (error) { handler(error.message) }] *)
Definition try_catch {A} (body : M A) (handler : string -> M A) : M A :=
  fun s =>
    match body s with
    | (Ok a, s') => (Ok a, s')
    | (Throw e, s') => handler e s'
    end.

(** [new Date()] *)
Definition clock : M Z := fun s => (Ok (now s), s).

Declare Scope notion_scope.
Delimit Scope notion_scope with notion.
Notation "x <- m ;; k" := (bind m (fun x => k))
  (at level 100, m at next level, right associativity) : notion_scope.
Notation "m ;;; k" := (bind m (fun _ => k))
  (at level 100, right associativity) : notion_scope.
Open Scope notion_scope.

(** The state once the service has taken one more request. *)
Definition next_request (s : state) : state :=
  {| db := db s; comments := comments s; faults := tail (faults s);
     now := now s; next_id := next_id s |}.

(** One request to the service: failed when the fault schedule says so,
    served otherwise. *)
Definition request {A} (serve : M A) : M A :=
  fun s =>
    match faults s with
    | true :: _ => (Throw "notion: request failed", next_request s)
    | _ => serve (next_request s)
    end.

Definition has_id (pageId : string) (p : page) : bool :=
  String.eqb (page_id p) pageId.

(** The page after a patch: the properties sent replace those of the same
    name, every other property is kept. *)
Definition patched (patch : gmap string property) (instant : Z) (p : page) : page :=
  {| page_id := page_id p;
     properties := patch ∪ properties p;
     created_time := created_time p;
     last_edited_time := instant |}.

(** The page with a given identifier. *)
Definition find_page (pageId : string) (pages : list page) : option page :=
  List.find (has_id pageId) pages.

(** The value an object literal gives to a key. *)
Fixpoint assoc (k : string) (l : list (string * property)) : option property :=
  match l with
  | [] => None
  | (k', v) :: rest => if String.eqb k' k then Some v else assoc k rest
  end.

(** [q'] is the page [q] up to the properties named in [keys]. *)
Definition agree_outside (keys : list string) (q q' : page) : Prop :=
  page_id q' = page_id q
  /\ forall k, k ∉ keys -> properties q' !! k = properties q !! k.

(** [notion.pages.retrieve({ page_id })] *)
Definition pages_retrieve (pageId : string) : M page :=
  request (fun s =>
    match find_page pageId (db s) with
    | Some p => (Ok p, s)
    | None => (Throw "notion: page not found", s)
    end).

(** [notion.pages.update({ page_id, properties })] *)
Definition pages_update (pageId : string) (patch : gmap string property) : M page :=
  request (fun s =>
    match find_page pageId (db s) with
    | Some p =>
        (Ok (patched patch (now s) p),
         with_db s (List.map (fun q => if has_id pageId q
                                        then patched patch (now s) q else q) (db s)))
    | None => (Throw "notion: page not found", s)
    end).

(** [notion.pages.create({ parent, properties })] *)
Definition pages_create (props : gmap string property) : M page :=
  request (fun s =>
    let p := {| page_id := "page-" +:+ pretty (next_id s);
                properties := props;
                created_time := now s;
                last_edited_time := now s |} in
    (Ok p,
     {| db := db s ++ [p]; comments := comments s; faults := faults s;
        now := now s; next_id := S (next_id s) |})).

(** The title a page is sorted by: the text of its [Video Title]. *)
Definition sort_key (p : page) : string :=
  match segments_of "Video Title" p with
  | Some l => Js.join EmptyString l
  | None => EmptyString
  end.

Fixpoint insert_sorted (p : page) (l : list page) : list page :=
  match l with
  | [] => [p]
  | q :: rest =>
      if String.leb (sort_key p) (sort_key q) then p :: l
      else q :: insert_sorted p rest
  end.

(** Pages by ascending title; pages with equal titles keep their order. *)
Definition sort_by_title (l : list page) : list page :=
  List.fold_right insert_sorted [] l.

(** [notion.databases.query({ database_id, filter, sorts, page_size })]:
    the pages that pass the filter, sorted when asked, cut to [page_size]
    when one is given; a query sent without [page_size] is answered with
    every page that passes the filter.  The scripts read this one answer
    only: none of them follows a cursor. *)
Definition databases_query (f : option filter) (by_title : bool)
    (page_size : option nat) : M (list page) :=
  request (fun s =>
    let hits := match f with
                | Some f => List.filter (matches f) (db s)
                | None => db s
                end in
    let ordered := if by_title then sort_by_title hits else hits in
    (Ok (match page_size with Some n => take n ordered | None => ordered end), s)).

(** [notion.databases.retrieve({ database_id })] *)
Definition databases_retrieve : M unit :=
  request (fun s => (Ok tt, s)).


(** JavaScript numbers. *)
Definition num (z : Z) : Q := inject_Z z.


(** A number is truthy unless it is zero. *)
Definition truthy_number (x : option Q) : bool :=
  match x with
  | Some q => negb (Qeq_bool q 0)
  | None => false
  end.

(** An optional string is truthy when present and not empty. *)
Definition truthy_string (x : option string) : bool :=
  match x with
  | Some s => Js.truthy s
  | None => false
  end.

(** [Math.round(x)]: the nearest integer, halves rounded up. *)
Definition Math_round (x : Q) : Z := Qfloor (x + (1 # 2)).

End Notion.

(** ** 5syncgdrive.js: reconciliation *)

Module SyncGdrive.
Import Notion.

(** A file as listed by [drive.files.list]; [size] is [None] when the
    field does not parse as an integer. *)
Record drive_file := {
  file_id : string;
  file_name : string;
  file_mimeType : string;
  file_size : option Z;
  file_createdTime : Z;
  file_modifiedTime : Z;
  file_webViewLink : string }.

(** An entry of [processedVideos]. *)
Record video := {
  id : string;
  name : string;
  originalName : string;
  mimeType : string;
  size : Z;
  createdTime : Z;
  modifiedTime : Z;
  driveLink : string;
  webViewLink : string }.

Definition shareableLink (fileId : string) : string :=
  "https://drive.google.com/file/d/" +:+ fileId +:+ "/view?usp=sharing".

Definition processVideo (f : drive_file) : video :=
  {| id := file_id f;
     name := Js.strip_extension (file_name f);
     originalName := file_name f;
     mimeType := file_mimeType f;
     size := match file_size f with
             | Some n => if (n =? 0)%Z then 0%Z else n
             | None => 0%Z
             end;
     createdTime := file_createdTime f;
     modifiedTime := file_modifiedTime f;
     driveLink := shareableLink (file_id f);
     webViewLink := file_webViewLink f |}.

(** [getVideosFromDrive]: [listing] is the answer of the Drive API, newest
    file first, or the error it raised. *)
Definition getVideosFromDrive (listing : result (list drive_file)) : M (list video) :=
  match listing with
  | Ok files => ret (List.map processVideo files)
  | Throw e => throw e
  end.

(** The key a title is compared by. *)
Definition normalize (title : string) : string := Js.trim (Js.toLowerCase title).

(** The body of the [forEach] that fills the two sets. *)
Definition collect (acc : gset string * gset string) (p : page)
  : gset string * gset string :=
  let title := first_title "Video Title" p in
  let link := url_of "Drive Link" p in
  (match title with
   | Some t => if Js.truthy t then {[ normalize t ]} ∪ acc.1 else acc.1
   | None => acc.1
   end,
   match link with
   | Some l => if Js.truthy l then {[ l ]} ∪ acc.2 else acc.2
   | None => acc.2
   end).

Definition lookup_of (pages : list page) : gset string * gset string :=
  List.fold_left collect pages (∅, ∅).

Definition getExistingVideosFromNotion : M (gset string * gset string) :=
  results <- databases_query None false (Some 100%nat) ;;
  ret (lookup_of results).

Definition fileSizeMB (bytes : Z) : Q :=
  Qred (num (Math_round (num bytes / num (1024 * 1024) * num 100)) / num 100).

Definition new_properties (v : video) : list (string * property) :=
  [ ("Video Title", Title [name v]);
    ("Drive Link", Url (driveLink v));
    ("Video Description", RichText [EmptyString]);
    ("Tags", RichText [EmptyString]);
    ("Category", Select "Education");
    ("Privacy", Select "Public");
    ("Upload Status", Select "Pending");
    ("File Size (MB)", Number (fileSizeMB (size v)));
    ("Drive Created", Date (createdTime v)) ].

Definition addVideoToNotion (v : video) : M page :=
  pages_create (list_to_map (new_properties v)).

(** The page written for a video. *)
Definition page_of (v : video) (p : page) : Prop :=
  properties p = list_to_map (new_properties v).


Record options := {
  dryRun : bool;
  limit : option Z;
  skipExisting : bool }.

(** The defaults of the destructuring in [syncVideos]. *)
Definition default_options : options :=
  {| dryRun := false; limit := None; skipExisting := true |}.

(** The object a run returns; the two early returns carry no [total]. *)
Record summary := {
  added : nat;
  skipped : nat;
  errors : nat;
  total : option nat }.

(** The predicate of [driveVideos.filter]. *)
Definition is_new (o : options) (existing : gset string * gset string) (v : video) : bool :=
  let nameExists := bool_decide (normalize (name v) ∈ existing.1) in
  let linkExists := bool_decide (driveLink v ∈ existing.2) in
  negb (skipExisting o && (nameExists || linkExists)).

(** [l.slice(0, n)] *)
Definition slice0 {A} (n : Z) (l : list A) : list A :=
  if (0 <=? n)%Z then take (Z.to_nat n) l
  else take (Z.to_nat (Z.of_nat (List.length l) + n)) l.

(** [limit ? newVideos.slice(0, limit) : newVideos] *)
Definition apply_limit {A} (lim : option Z) (l : list A) : list A :=
  match lim with
  | Some n => if (n =? 0)%Z then l else slice0 n l
  | None => l
  end.

(** The loop over [videosToAdd], with its two counters. *)
Fixpoint addAll (dry : bool) (videos : list video) (nadded nerrors : nat)
  : M (nat * nat) :=
  match videos with
  | [] => ret (nadded, nerrors)
  | v :: rest =>
      ok <- try_catch
              (if dry then ret true
               else (addVideoToNotion v ;;; ret true))
              (fun _ => ret false) ;;
      if ok : bool then addAll dry rest (S nadded) nerrors
      else addAll dry rest nadded (S nerrors)
  end.

Definition syncVideos (listing : result (list drive_file)) (o : options) : M summary :=
  driveVideos <- getVideosFromDrive listing ;;
  if (List.length driveVideos =? 0)%nat
  then ret {| added := 0; skipped := 0; errors := 0; total := None |}
  else
    existing <- getExistingVideosFromNotion ;;
    let newVideos := List.filter (is_new o existing) driveVideos in
    if (List.length newVideos =? 0)%nat
    then ret {| added := 0; skipped := List.length driveVideos; errors := 0; total := None |}
    else
      let videosToAdd := apply_limit (limit o) newVideos in
      counts <- addAll (dryRun o) videosToAdd 0 0 ;;
      ret {| added := counts.1;
             skipped := List.length driveVideos - List.length newVideos;
             errors := counts.2;
             total := Some (List.length driveVideos) |}.

(** The options [main] builds from [process.argv.slice(2)]. *)
Definition main_options (args : list string) : options :=
  {| dryRun := bool_decide ("--preview" ∈ args) || bool_decide ("--dry-run" ∈ args);
     limit :=
       match List.find (fun arg => Js.is_Some_b (Js.strip_prefix "--limit=" arg)) args with
       | Some arg =>
           match Js.strip_prefix "--limit=" arg with
           | Some value =>
               Js.parseInt (Js.take_while (fun c => negb (Js.eqb_ascii c "=")) value)
           | None => None
           end
       | None => None
       end;
     skipExisting := negb (bool_decide ("--force" ∈ args)) |}.

(** [main], as far as the database is concerned: [signed_in] tells whether
    the Drive sign-in succeeds.  The exit status is [true] for 0. *)
Definition main (signed_in : bool) (listing : result (list drive_file))
    (args : list string) : state -> bool * state :=
  fun s =>
    if signed_in then
      match syncVideos listing (main_options args) s with
      | (Ok _, s') => (true, s')
      | (Throw _, s') => (false, s')
      end
    else (false, s).

End SyncGdrive.

(** ** The outcome of a publication

    The object the upload step hands to the code that updates the record.
    A field that is absent is [None]. *)

Record upload_result := {
  success : bool;
  videoId : option string;
  videoUrl : option string;
  url : option string;
  thumbnailUrl : option string;
  uploadDate : option Z;
  uploadTimeSeconds : option Q;
  fileSize : option Q;
  privacy : option string;
  error : option string;
  attempts : option Q }.

(** ** utils/update-notion.js *)

Module UpdateNotionUtil.
Import Notion.

Record youtube_data := {
  yt_videoUrl : option string;
  yt_uploadDate : option Z }.

Definition updateVideoStatus (pageId status : string) (youtubeData : option youtube_data)
  : M page :=
  instant <- clock ;;
  let base := [ ("Upload Status", Select status) ] in
  let props :=
    match youtubeData with
    | Some y =>
        base
        ++ match yt_videoUrl y with
           | Some u => if Js.truthy u then [ ("YouTube URL", Url u) ] else []
           | None => []
           end
        ++ [ ("Upload Date", Date (default instant (yt_uploadDate y))) ]
    | None => base
    end in
  pages_update pageId (list_to_map props).

Definition addErrorLog (pageId errorMessage : string) : M unit :=
  try_catch
    (instant <- clock ;;
     pages_update pageId
       (list_to_map [ ("Upload Status", Select "Error");
                      ("Upload Date", Date instant) ]) ;;;
     ret tt)
    (fun _ => ret tt).

Definition markAsProcessing (pageId : string) : M page :=
  updateVideoStatus pageId "Processing" None.

Definition markAsUploaded (pageId : string) (uploadResult : upload_result) : M page :=
  instant <- clock ;;
  let youtubeData :=
    {| yt_videoUrl := if truthy_string (videoUrl uploadResult)
                      then videoUrl uploadResult else url uploadResult;
       yt_uploadDate := Some instant |} in
  updateVideoStatus pageId "Uploaded" (Some youtubeData).

Definition markAsError (pageId errorMessage : string) : M unit :=
  updateVideoStatus pageId "Error" None ;;;
  addErrorLog pageId errorMessage.

End UpdateNotionUtil.

(** ** The module of [updateNotionPage], [updateNotionAfterUpload] and
       [cleanupOldErrors] *)

Module UpdateNotion.
Import Notion.

Definition formatNotionDate (date : option Z) : M Z :=
  match date with
  | Some d => ret d
  | None => clock
  end.

Definition createRichText (text : option string) : list string :=
  match text with
  | Some t => if Js.truthy t then [ Js.substring0 2000 t ] else []
  | None => []
  end.

(** What [updateNotionPage] returns. *)
Record update_summary := {
  updated : bool;
  updatedPage : string;
  updatedAt : Z;
  updatedProperties : list string }.

(** The properties [updateNotionPage] assembles, in the order it assigns
    them; [instant] is the time of the call. *)
Definition update_properties (uploadResult : upload_result) (uploadDay instant : Z)
  : list (string * property) :=
  [ ("Upload Status", Select (if success uploadResult then "Uploaded" else "Error"));
    ("Upload Date", Date uploadDay) ]
  ++ (if success uploadResult && truthy_string (videoUrl uploadResult)
      then [ ("YouTube URL", Url (default EmptyString (videoUrl uploadResult))) ] else [])
  ++ (if truthy_string (videoId uploadResult)
      then [ ("Video ID", RichText (createRichText (videoId uploadResult))) ] else [])
  ++ (if truthy_string (thumbnailUrl uploadResult)
      then [ ("Thumbnail URL", Url (default EmptyString (thumbnailUrl uploadResult))) ] else [])
  ++ (if success uploadResult then
        (if truthy_number (uploadTimeSeconds uploadResult)
         then [ ("Upload Time (s)", Number (default 0%Q (uploadTimeSeconds uploadResult))) ]
         else [])
        ++ (if truthy_number (fileSize uploadResult)
            then [ ("File Size (MB)",
                    Number (num (Math_round
                      (default 0%Q (fileSize uploadResult) / num 1024 / num 1024)))) ]
            else [])
        ++ (if truthy_string (privacy uploadResult)
            then [ ("Final Privacy",
                    Select (Js.capitalize (default EmptyString (privacy uploadResult)))) ]
            else [])
      else [])
  ++ (if negb (success uploadResult) && truthy_string (error uploadResult)
      then [ ("Error Message", RichText (createRichText (error uploadResult)));
             ("Error Date", Date instant) ]
      else [])
  ++ (if truthy_number (attempts uploadResult)
      then [ ("Upload Attempts", Number (default 0%Q (attempts uploadResult))) ] else []).

Definition updateNotionPage (pageId : string) (uploadResult : upload_result)
  : M update_summary :=
  uploadDay <- formatNotionDate (uploadDate uploadResult) ;;
  instant <- clock ;;
  let props := update_properties uploadResult uploadDay instant in
  response <- pages_update pageId (list_to_map props) ;;
  if String.eqb (page_id response) pageId
  then ret {| updated := true; updatedPage := pageId;
              updatedAt := last_edited_time response;
              updatedProperties := List.map fst props |}
  else throw "❌ Resposta inesperada do Notion".

Definition markAsError (pageId errorMessage : string) (attempts : option Q)
  : M update_summary :=
  instant <- clock ;;
  let errorResult :=
    {| success := false; videoId := None; videoUrl := None; url := None;
       thumbnailUrl := None; uploadDate := Some instant;
       uploadTimeSeconds := None; fileSize := None; privacy := None;
       error := Some errorMessage;
       attempts := Some (default 1%Q attempts) |} in
  updateNotionPage pageId errorResult.



(** Milliseconds in a day: [setDate(getDate() - days)] moves the clock back
    by whole days. *)
Definition msPerDay : Z := 86400000.

Definition stale_filter (cutoff : Z) : filter :=
  And (SelectEquals "Upload Status" "Error") (DateBefore "Error Date" cutoff).

Definition reset_properties : list (string * property) :=
  [ ("Upload Status", Select "Pending");
    ("Error Message", RichText []);
    ("Upload Attempts", Number 0%Q) ].

(** A page the query of [cleanupOldErrors] returns, and the page after its
    reset. *)
Definition is_stale (cutoff : Z) (p : page) : bool := matches (stale_filter cutoff) p.

Definition reset (instant : Z) (p : page) : page :=
  patched (list_to_map reset_properties) instant p.

(** [q] has the identifier of one of the [pages]. *)
Definition listed (pages : list page) (q : page) : bool :=
  existsb (fun x => has_id (page_id x) q) pages.

(** The loop of [cleanupOldErrors]: a page whose update fails is skipped. *)
Fixpoint resetAll (pages : list page) (cleaned : nat) : M nat :=
  match pages with
  | [] => ret cleaned
  | p :: rest =>
      ok <- try_catch
              (pages_update (page_id p) (list_to_map reset_properties) ;;; ret true)
              (fun _ => ret false) ;;
      resetAll rest (if ok : bool then S cleaned else cleaned)
  end.

(** [cleanupOldErrors(days)]; [None] stands for a call without argument. *)
Definition cleanupOldErrors (days : option Z) : M nat :=
  let days := default 7%Z days in
  try_catch
    (instant <- clock ;;
     let cutoffDate := (instant - days * msPerDay)%Z in
     errorPages <- databases_query (Some (stale_filter cutoffDate)) false None ;;
     resetAll errorPages 0)
    (fun _ => ret 0%nat).

Section Comments.

(** How a date ([None]: an invalid one) and a number ([None]: [undefined])
    are printed inside a comment. *)
Variable toLocaleString : option Z -> string.
Variable show_number : option Q -> string.




End Comments.

End UpdateNotion.

(** ** 1fetchvideos.js: selection of the next pending record *)

Module FetchVideos.
Import Notion.

(** [extractPlainText] and [extractTitle]: the segments joined and
    trimmed; the empty string when the property is missing. *)
Definition extractPlainText (segments : option (list string)) : string :=
  match segments with
  | Some l => Js.trim (Js.join EmptyString l)
  | None => EmptyString
  end.

Record video_data := {
  pageId : string;
  title : string;
  description : string;
  driveLink : string;
  tags : string;
  category : string;
  privacy : string;
  uploadStatus : string;
  createdAt : Z;
  lastEdited : Z;
  isValid : bool;
  validations : list string }.

(** [x || fallback] for an optional string. *)
Definition or_else (x : option string) (fallback : string) : string :=
  match x with
  | Some s => if Js.truthy s then s else fallback
  | None => fallback
  end.

Definition processVideoData (p : page) : video_data :=
  let title0 := extractPlainText (segments_of "Video Title" p) in
  let description0 := extractPlainText (segments_of "Video Description" p) in
  let link := or_else (url_of "Drive Link" p) EmptyString in
  let validations :=
    (if negb (Js.truthy title0) then [ "❌ Título não pode estar vazio" ] else [])
    ++ (if (100 <? String.length title0)%nat
        then [ "⚠️ Título muito longo (será truncado)" ] else [])
    ++ (if negb (Js.truthy link) then [ "❌ Link do Drive é obrigatório" ] else [])
    ++ (if Js.truthy link && negb (Js.includes "drive.google.com" link)
        then [ "⚠️ Link não parece ser do Google Drive" ] else [])
    ++ (if (4500 <? String.length description0)%nat
        then [ "⚠️ Descrição muito longa (será truncada)" ] else []) in
  {| pageId := page_id p;
     title := if (100 <? String.length title0)%nat
              then Js.substring0 100 title0 else title0;
     description := if (4500 <? String.length description0)%nat
                    then Js.substring0 4500 description0 else description0;
     driveLink := link;
     tags := extractPlainText (segments_of "Tags" p);
     category := or_else (select_of "Category" p) "Education";
     privacy := or_else (select_of "Privacy" p) "Public";
     uploadStatus := or_else (select_of "Upload Status" p) "Pending";
     createdAt := created_time p;
     lastEdited := last_edited_time p;
     isValid := negb (existsb (Js.includes "❌") validations);
     validations := validations |}.

Definition fetchPendingVideos (limit : nat) : M (list video_data) :=
  results <- databases_query (Some (SelectEquals "Upload Status" "Pending")) true
               (Some (Nat.min limit 100)) ;;
  ret (List.filter isValid (List.map processVideoData results)).

Definition fetchVideoById (pageId : string) : M video_data :=
  p <- pages_retrieve pageId ;;
  ret (processVideoData p).

Definition getNextVideoForUpload : M (option video_data) :=
  videos <- fetchPendingVideos 1 ;;
  ret (head videos).

Record stats := {
  stat_total : nat;
  stat_pending : nat;
  stat_uploaded : nat;
  stat_error : nat }.

Definition count_status (name : string) (pages : list page) : nat :=
  List.length
    (List.filter (fun p => String.eqb (or_else (select_of "Upload Status" p) "Pending") name)
       pages).

Definition checkDatabaseStatus : M stats :=
  databases_retrieve ;;;
  allPages <- databases_query None false (Some 100%nat) ;;
  ret {| stat_total := List.length allPages;
         stat_pending := count_status "Pending" allPages;
         stat_uploaded := count_status "Uploaded" allPages;
         stat_error := count_status "Error" allPages |}.

(** The content of [temp_video_data.json]. *)
Record temp_video := {
  temp_pageId : string;
  temp_title : string;
  temp_description : string;
  temp_tags : string;
  temp_category : string;
  temp_privacy : string }.

Definition to_temp (v : video_data) : temp_video :=
  {| temp_pageId := pageId v; temp_title := title v;
     temp_description := description v; temp_tags := tags v;
     temp_category := category v; temp_privacy := privacy v |}.

(** [main]: the selected record and, when there is one, the file written
    for the next scripts.  Reading the title of a missing selection
    throws. *)
Definition main : M (option video_data * option temp_video) :=
  status <- checkDatabaseStatus ;;
  if (stat_pending status =? 0)%nat then ret (None, None)
  else
    nextVideo <- getNextVideoForUpload ;;
    match nextVideo with
    | Some v => ret (Some v, Some (to_temp v))
    | None => throw "TypeError: Cannot read properties of null (reading 'title')"
    end.

End FetchVideos.

(** ** run-pipeline.js: the orchestration *)

Module RunPipeline.

(** What the scripts act on: the Notion service, the Drive folder as the
    Drive API lists it, the hand-over file [temp_video_data.json], the
    local files and the videos published so far. *)
Record system := {
  service : Notion.state;
  drive_signed_in : bool;
  drive : result (list SyncGdrive.drive_file);
  temp_video_data : option FetchVideos.temp_video;
  files : gmap string N;
  published : list string }.


Definition with_temp (sys : system) (t : option FetchVideos.temp_video) : system :=
  {| service := service sys; drive_signed_in := drive_signed_in sys; drive := drive sys;
     temp_video_data := t; files := files sys; published := published sys |}.

(** A child process: its command line in, whether it could be started and
    exited with status 0 out. *)
Definition process := list string -> system -> result bool * system.




Record pipeline_options := {
  maxVideos : nat;
  sync : bool;
  preview : bool;
  quiet : bool }.


(** The object [runPipeline] returns. *)
Record pipeline_result := {
  pipeline_success : bool;
  pipeline_step : option string;
  pipeline_error : option string }.

Definition failed_at (step : string) : pipeline_result :=
  {| pipeline_success := false; pipeline_step := Some step; pipeline_error := None |}.

Definition crashed (e : string) : pipeline_result :=
  {| pipeline_success := false; pipeline_step := None; pipeline_error := Some e |}.

Definition finished : pipeline_result :=
  {| pipeline_success := true; pipeline_step := None; pipeline_error := None |}.

(** What a run leaves: its result, the command lines it started, in
    order, and the system afterwards. *)
Record pipeline_run := {
  returned : pipeline_result;
  started : list (list string);
  final : system }.

Section Pipeline.

Variable runCommand : process.

(** One step: start the command; [next] continues after exit status 0. *)
Definition step (name : string) (argv : list string) (log : list (list string))
    (sys : system) (next : list (list string) -> system -> pipeline_run) : pipeline_run :=
  match runCommand argv sys with
  | (Throw e, sys') =>
      {| returned := crashed e; started := log ++ [argv]; final := sys' |}
  | (Ok false, sys') =>
      {| returned := failed_at name; started := log ++ [argv]; final := sys' |}
  | (Ok true, sys') => next (log ++ [argv]) sys'
  end.

(** The end of a run: the hand-over file is removed. *)
Definition finish (log : list (list string)) (sys : system) : pipeline_run :=
  {| returned := finished; started := log; final := with_temp sys None |}.

(** Steps 3 to 5, or nothing in preview mode. *)
Definition process_video (o : pipeline_options) (page : string)
    (log : list (list string)) (sys : system) : pipeline_run :=
  if negb (preview o) then
    step "download" [ "node"; "2downloadvideo.js"; page ] log sys (fun log sys =>
    step "upload" [ "node"; "3uploadyoutube.js"; page ] log sys (fun log sys =>
    step "update" [ "node"; "4updatenotion.js"; page ] log sys finish))
  else finish log sys.

(** Step 2 and the reading of the hand-over file. *)
Definition select_video (o : pipeline_options) (log : list (list string))
    (sys : system) : pipeline_run :=
  step "fetch" [ "node"; "1fetchvideos.js" ] log sys (fun log sys =>
    match temp_video_data sys with
    | Some videoData =>
        if Js.truthy (FetchVideos.temp_pageId videoData)
        then process_video o (FetchVideos.temp_pageId videoData) log sys
        else {| returned := failed_at "no_video"; started := log; final := sys |}
    | None => {| returned := failed_at "no_video"; started := log; final := sys |}
    end).

Definition runPipeline (o : pipeline_options) (sys : system) : pipeline_run :=
  if sync o
  then step "sync" [ "node"; "5syncgdrive.js" ] [] sys (select_video o)
  else select_video o [] sys.

End Pipeline.

End RunPipeline.

(** ** Concrete situations

    The inputs at which the statements below are exercised. *)

Module Scenario.
Import Notion.

(** *** Downloads *)

Definition tempDir : string := "/app/temp".

Definition fileId : string := "1AbC_dEf-0123456789xyzXYZ".

Definition driveUrl : string :=
  "https://drive.google.com/file/d/1AbC_dEf-0123456789xyzXYZ/view?usp=sharing".

Definition url1 : string :=
  "https://drive.google.com/uc?export=download&id=1AbC_dEf-0123456789xyzXYZ".
Definition url2 : string :=
  "https://docs.google.com/uc?export=download&id=1AbC_dEf-0123456789xyzXYZ".
Definition url3 : string :=
  "https://drive.usercontent.google.com/download?id=1AbC_dEf-0123456789xyzXYZ&export=download".
Definition url4 : string :=
  "https://drive.google.com/uc?id=1AbC_dEf-0123456789xyzXYZ&export=download".

(** An interstitial page, a video of ten megabytes, a body without
    bytes. *)
Definition html_page : DriveDownloader.attempt :=
  DriveDownloader.Response
    {| DriveDownloader.status := 200;
       DriveDownloader.content_type := Some "text/html; charset=utf-8";
       DriveDownloader.content_length := None;
       DriveDownloader.body := DriveDownloader.Finished (Some 2048%N) |}.

Definition ten_megabytes : DriveDownloader.attempt :=
  DriveDownloader.Response
    {| DriveDownloader.status := 200;
       DriveDownloader.content_type := Some "video/mp4";
       DriveDownloader.content_length := Some "10485760";
       DriveDownloader.body := DriveDownloader.Finished (Some 10485760%N) |}.

Definition empty_body : DriveDownloader.attempt :=
  DriveDownloader.Response
    {| DriveDownloader.status := 200;
       DriveDownloader.content_type := Some "application/octet-stream";
       DriveDownloader.content_length := Some "0";
       DriveDownloader.body := DriveDownloader.Finished (Some 0%N) |}.

(** The first two candidates answer with markup, the third delivers. *)
Definition third_delivers (url : string) : DriveDownloader.attempt :=
  if String.eqb url url1 then html_page
  else if String.eqb url url2 then html_page
  else if String.eqb url url3 then ten_megabytes
  else DriveDownloader.RequestError "connect ETIMEDOUT".

(** The first candidate delivers no byte, the others answer with markup. *)
Definition none_delivers (url : string) : DriveDownloader.attempt :=
  if String.eqb url url1 then empty_body else html_page.

(** Every candidate delivers no byte. *)
Definition all_empty (url : string) : DriveDownloader.attempt := empty_body.

(** *** The database *)

Definition instant : Z := 1767225600000.

Definition empty_service : state :=
  {| db := []; comments := []; faults := []; now := instant; next_id := 0 |}.

(** The same service when it fails the second request it receives. *)
Definition failing_second_request : state :=
  {| db := []; comments := []; faults := [ false; true ]; now := instant; next_id := 0 |}.

Definition service_of (pages : list page) : state :=
  {| db := pages; comments := []; faults := [];
     now := instant; next_id := List.length pages |}.

Definition drive_file_of (fileId name : string) (bytes : Z) : SyncGdrive.drive_file :=
  {| SyncGdrive.file_id := fileId;
     SyncGdrive.file_name := name;
     SyncGdrive.file_mimeType := "video/mp4";
     SyncGdrive.file_size := Some bytes;
     SyncGdrive.file_createdTime := 1767000000000;
     SyncGdrive.file_modifiedTime := 1767000000000;
     SyncGdrive.file_webViewLink :=
       "https://drive.google.com/file/d/" +:+ fileId +:+ "/view?usp=drivesdk" |}.

(** One new file. *)
Definition sermon1 : SyncGdrive.drive_file :=
  drive_file_of "abc123" "Sermon 1.mp4" 52428800.


(** Two new files, and a cap of one record per pass. *)
Definition two_files : list SyncGdrive.drive_file :=
  [ drive_file_of "id-of-the-first-file-0001" "Psalm 23.mp4" 1048576;
    drive_file_of "id-of-the-second-file-002" "Psalm 24.mp4" 2097152 ].

Definition one_per_pass : SyncGdrive.options :=
  {| SyncGdrive.dryRun := false; SyncGdrive.limit := Some 1%Z;
     SyncGdrive.skipExisting := true |}.

(** A page as the reconciliation writes it. *)
Definition page_for (n : nat) (f : SyncGdrive.drive_file) : page :=
  {| page_id := "page-" +:+ pretty n;
     properties := list_to_map (SyncGdrive.new_properties (SyncGdrive.processVideo f));
     created_time := instant;
     last_edited_time := instant |}.

(** A hundred records, followed by the record of [sermon1]. *)
Definition hundred_pages : list page :=
  List.map (fun n => page_for n (drive_file_of ("file-" +:+ pretty n)
                                   ("Video " +:+ pretty n +:+ ".mp4") 1048576))
           (seq 0 100).

Definition crowded_service : state :=
  service_of (hundred_pages ++ [ page_for 100 sermon1 ]).

(** *** Records in the middle of their life *)

(** A record that failed twice before and is being processed again. *)
Definition retried_page : page :=
  {| page_id := "page-0";
     properties :=
       list_to_map
         [ ("Video Title", Title [ "Sermon 1" ]);
           ("Drive Link", Url "https://drive.google.com/file/d/abc123/view?usp=sharing");
           ("Upload Status", Select "Pending");
           ("Upload Attempts", Number 2%Q) ];
     created_time := 1767000000000;
     last_edited_time := 1767000000000 |}.

(** A record in [Error], reset by hand before the next attempt. *)
Definition failed_page : page :=
  {| page_id := "page-0";
     properties :=
       list_to_map
         [ ("Video Title", Title [ "Sermon 1" ]);
           ("Drive Link", Url "https://drive.google.com/file/d/abc123/view?usp=sharing");
           ("Upload Status", Select "Error");
           ("Error Message", RichText [ "quota exceeded" ]);
           ("Error Date", Date 1767100000000);
           ("Upload Attempts", Number 1%Q) ];
     created_time := 1767000000000;
     last_edited_time := 1767100000000 |}.

(** A fresh record that failed ten days ago, and one that failed
    yesterday. *)
Definition stale_page : page :=
  {| page_id := "page-1";
     properties :=
       list_to_map
         [ ("Video Title", Title [ "Sermon 2" ]);
           ("Upload Status", Select "Error");
           ("Error Message", RichText [ "quota exceeded" ]);
           ("Error Date", Date (instant - 10 * 86400000));
           ("Upload Attempts", Number 3%Q) ];
     created_time := 1766000000000;
     last_edited_time := 1766000000000 |}.


(** The outcome of a failed upload, as [uploadToYouTubeComplete] builds
    it, and the outcome of a successful one. *)
Definition failed_outcome : upload_result :=
  {| success := false; videoId := None; videoUrl := None; url := None;
     thumbnailUrl := None; uploadDate := Some instant;
     uploadTimeSeconds := Some (3 # 2)%Q; fileSize := None; privacy := None;
     error := Some "quota exceeded"; attempts := Some 1%Q |}.


Definition published_outcome : upload_result :=
  {| success := true; videoId := Some "dQw4w9WgXcQ";
     videoUrl := Some "https://www.youtube.com/watch?v=dQw4w9WgXcQ"; url := None;
     thumbnailUrl := Some "https://img.youtube.com/vi/dQw4w9WgXcQ/maxresdefault.jpg";
     uploadDate := Some instant; uploadTimeSeconds := Some 42%Q;
     fileSize := Some 52428800%Q; privacy := Some "public";
     error := None; attempts := None |}.



(** *** A preview run *)






End Scenario.


(** * The rest of the scripts

    The functions of the same files that the statements above did not
    need: the checks on the environment, the checks and the driver of
    [2downloadvideo.js], the statistics of the database, and
    [uploadVideoById], the caller of [markAsUploaded] and [markAsError]. *)

(** ** Node's [path] module, on POSIX paths *)

Module Path.

(** A character other than a slash and a dot, the class [[^/.]]. *)
Definition plain_char (c : ascii) : bool :=
  negb (Js.eqb_ascii c "/" || Js.eqb_ascii c ".").

Definition is_slash (c : ascii) : bool := Js.eqb_ascii c "/".
Definition is_dot (c : ascii) : bool := Js.eqb_ascii c ".".

(** [path.basename(p)]: the last segment of the path, trailing slashes
    left out. *)
Definition basename (p : string) : string :=
  Js.rev (Js.take_while (fun c => negb (is_slash c))
            (Js.drop_while is_slash (Js.rev p))).

(** [path.extname(p)]: what starts at the last dot of the last segment;
    empty when the segment has no dot, when its only dot is its first
    character, and for the segment [..]. *)
Definition extname (p : string) : string :=
  let segment := basename p in
  let backwards := Js.rev segment in
  match Js.drop_while (fun c => negb (is_dot c)) backwards with
  | EmptyString => EmptyString
  | String _ before =>
      if negb (Js.truthy before) || String.eqb segment ".."
      then EmptyString
      else String "." (Js.rev (Js.take_while (fun c => negb (is_dot c)) backwards))
  end.

End Path.

(** ** [process.env] and the checks the scripts run on it *)

Module Environment.

(** [required.filter(key => !process.env[key])] *)
Definition missing (required : list string) (env : gmap string string) : list string :=
  List.filter (fun key => negb (Notion.truthy_string (env !! key))) required.

(** [validateEnvironment] of 5syncgdrive.js *)
Definition validateEnvironment (env : gmap string string) : result unit :=
  let required :=
    [ "NOTION_TOKEN"; "NOTION_DATABASE_ID"; "GOOGLE_DRIVE_FOLDER_ID";
      "GOOGLE_CLIENT_ID"; "GOOGLE_CLIENT_SECRET"; "GOOGLE_REFRESH_TOKEN" ] in
  let missing := missing required env in
  if (0 <? List.length missing)%nat
  then Throw ("❌ Variáveis obrigatórias: " +:+ Js.join ", " missing)
  else Ok tt.

(** [validateEnvironmentVariables] of 1fetchvideos.js and of the module of
    [updateNotionPage] *)
Definition validateEnvironmentVariables (env : gmap string string) : result unit :=
  let required := [ "NOTION_TOKEN"; "NOTION_DATABASE_ID" ] in
  let missing := missing required env in
  if (0 <? List.length missing)%nat
  then Throw ("❌ Variáveis de ambiente faltando: " +:+ Js.join ", " missing)
  else Ok tt.

(** [validateYouTubeConfig] of 3uploadyoutube.js *)
Definition validateYouTubeConfig (env : gmap string string) : result unit :=
  let required := [ "GOOGLE_CLIENT_ID"; "GOOGLE_CLIENT_SECRET"; "GOOGLE_REFRESH_TOKEN" ] in
  let missing := missing required env in
  if (0 <? List.length missing)%nat
  then Throw ("❌ Configurações YouTube faltando: " +:+ Js.join ", " missing)
  else Ok tt.

End Environment.

(** ** utils/drive-downloader.js: removal of a temporary file *)

Module DriveFiles.

(** [cleanupTempFile(filePath)]: the file is removed when it is there. *)
Definition cleanupTempFile (filePath : string) (files : gmap string N) : gmap string N :=
  match files !! filePath with
  | Some _ => delete filePath files
  | None => files
  end.

End DriveFiles.

(** ** 2downloadvideo.js: the checks and the driver *)

Module Download.

(** What [validateVideoData] returns. *)
Record validation := {
  isValid : bool;
  errors : list string;
  warnings : list string;
  errorCount : nat;
  warningCount : nat }.

Definition validateVideoData (videoData : FetchVideos.video_data) : validation :=
  let pageId := FetchVideos.pageId videoData in
  let title := FetchVideos.title videoData in
  let driveLink := FetchVideos.driveLink videoData in
  let description := FetchVideos.description videoData in
  let uploadStatus := FetchVideos.uploadStatus videoData in
  let errors :=
    (if negb (Js.truthy pageId) then [ "❌ ID da página não fornecido" ] else [])
    ++ (if negb (Js.truthy title) then [ "❌ Título do vídeo é obrigatório" ] else [])
    ++ (if negb (Js.truthy driveLink)
        then [ "❌ Link do Google Drive é obrigatório" ] else []) in
  let warnings :=
    (if Js.truthy driveLink && negb (Js.includes "drive.google.com" driveLink)
     then [ "⚠️ Link não parece ser do Google Drive" ] else [])
    ++ (if Js.truthy title && (100 <? String.length title)%nat
        then [ "⚠️ Título muito longo (será truncado)" ] else [])
    ++ (if Js.truthy description && (4500 <? String.length description)%nat
        then [ "⚠️ Descrição muito longa (será truncada)" ] else [])
    ++ (if negb (String.eqb uploadStatus "Pending")
        then [ "⚠️ Status atual: " +:+ uploadStatus +:+ " (não é Pending)" ] else []) in
  {| isValid := (List.length errors =? 0)%nat;
     errors := errors;
     warnings := warnings;
     errorCount := List.length errors;
     warningCount := List.length warnings |}.

(** [checkDiskSpace]: the space is not measured. *)
Definition checkDiskSpace (requiredMB : Z) : bool := true.

(** What the machine lets [prepareDownloadEnvironment] do: the directory
    is there or can be made and a file can be written to it and removed;
    or making the directory fails with a message of the system; or the
    test file cannot be written. *)
Inductive directory :=
| Writable
| CannotCreate (message : string)
| CannotWrite.

(** What [validateDownloadedFile] returns when the file passes.  The
    field [isValid] is [true] then. *)
Record validated_file := {
  valid_filePath : string;
  valid_fileName : string;
  valid_fileSize : N;
  valid_mimeType : string;
  valid_extension : string }.

(** The two objects [validateDownloadedFile] returns: the one above, or
    [{ isValid: false, error }]. *)
Inductive file_check :=
| ValidFile (file : validated_file)
| InvalidFile (error : string).

(** 128 GB *)
Definition maxVideoSize : N := 128 * 1024 * 1024 * 1024.

Definition validateDownloadedFile (downloadResult : DriveDownloader.payload)
    (files : gmap string N) : file_check :=
  match files !! DriveDownloader.filePath downloadResult with
  | None => InvalidFile "❌ Arquivo não encontrado após download"
  | Some actualSize =>
      if (actualSize =? 0)%N then InvalidFile "❌ Arquivo está vazio"
      else
        let extension :=
          Js.toLowerCase (Path.extname (DriveDownloader.fileName downloadResult)) in
        if (maxVideoSize <? actualSize)%N
        then InvalidFile ("❌ Arquivo muito grande: " +:+ pretty actualSize
                          +:+ " bytes (máximo: 128GB)")
        else ValidFile
               {| valid_filePath := DriveDownloader.filePath downloadResult;
                  valid_fileName := DriveDownloader.fileName downloadResult;
                  valid_fileSize := actualSize;
                  valid_mimeType :=
                    if Js.truthy (DriveDownloader.mimeType downloadResult)
                    then DriveDownloader.mimeType downloadResult
                    else "video/unknown";
                  valid_extension := extension |}
  end.

(** The object [downloadVideo] returns.  On success [downloadResult] is
    the object spread from the download and its validation; the times and
    the speed, which are read off the clock, are left out. *)
Record download_report := {
  success : bool;
  error : option string;
  videoData : FetchVideos.video_data;
  downloadResult : option validated_file }.

(** What a run of [downloadVideo] leaves: the report, the local files and
    the URLs that were requested. *)
Record download_run := {
  report : download_report;
  files_after : gmap string N;
  fetched : list string }.

Section Driver.

(** The temporary directory, the same for this script and for
    utils/drive-downloader.js; the network; the machine. *)
Variable tempDir : string.
Variable net : string -> DriveDownloader.attempt.
Variable machine : directory.

(** The test file is written and removed again. *)
Definition prepareDownloadEnvironment (files : gmap string N)
  : result string * gmap string N :=
  match machine with
  | Writable =>
      let testFile := tempDir +:+ "/" +:+ "test-write.tmp" in
      let _ := checkDiskSpace 500 in
      (Ok tempDir, delete testFile files)
  | CannotCreate e => (Throw e, files)
  | CannotWrite => (Throw ("❌ Sem permissão de escrita em: " +:+ tempDir), files)
  end.

(** The [catch] block of [downloadVideo], after the removal of the file. *)
Definition failed (videoData : FetchVideos.video_data) (e : string)
    (files : gmap string N) (urls : list string) : download_run :=
  {| report := {| success := false; error := Some e;
                  videoData := videoData; downloadResult := None |};
     files_after := files;
     fetched := urls |}.

Definition downloadVideo (videoData : FetchVideos.video_data) (files : gmap string N)
  : download_run :=
  let validation := validateVideoData videoData in
  if negb (isValid validation)
  then failed videoData ("Dados inválidos: " +:+ Js.join ", " (errors validation)) files []
  else
    match DownloadVideo.extractAndValidateDriveId (FetchVideos.driveLink videoData) with
    | Throw e => failed videoData e files []
    | Ok _ =>
        match prepareDownloadEnvironment files with
        | (Throw e, files) => failed videoData e files []
        | (Ok _, files) =>
            let run := DriveDownloader.downloadFromDrive tempDir net
                         (FetchVideos.driveLink videoData) files in
            match DriveDownloader.outcome run with
            | Throw e =>
                failed videoData e (DriveDownloader.disk run) (DriveDownloader.requested run)
            | Ok downloaded =>
                match validateDownloadedFile downloaded (DriveDownloader.disk run) with
                | InvalidFile e =>
                    failed videoData ("Arquivo inválido: " +:+ e)
                      (DriveFiles.cleanupTempFile (DriveDownloader.filePath downloaded)
                         (DriveDownloader.disk run))
                      (DriveDownloader.requested run)
                | ValidFile file =>
                    {| report := {| success := true; error := None;
                                    videoData := videoData;
                                    downloadResult := Some file |};
                       files_after := DriveDownloader.disk run;
                       fetched := DriveDownloader.requested run |}
                end
            end
        end
    end.

(** [downloadVideoById]: the record is read, then downloaded. *)
Definition downloadVideoById (pageId : string) (files : gmap string N)
  : Notion.M download_run :=
  Notion.bind (FetchVideos.fetchVideoById pageId) (fun videoData =>
  Notion.ret (downloadVideo videoData files)).

(** [main]: the exit status ([true] for 0), the files and the service
    after [node 2downloadvideo.js ARGS]. *)
Definition main (args : list string) (files : gmap string N) (s : Notion.state)
  : bool * gmap string N * Notion.state :=
  match args with
  | pageId :: _ =>
      if Js.truthy pageId then
        match downloadVideoById pageId files s with
        | (Ok run, s') => (success (report run), files_after run, s')
        | (Throw _, s') => (false, files, s')
        end
      else (false, files, s)
  | [] => (false, files, s)
  end.

End Driver.

End Download.

(** ** The statistics of [getDatabaseStats]

    Dates are compared as the instants they denote: the scripts write
    them with [toISOString], and on such strings the order of the strings
    is the order of the instants. *)

Module DatabaseStats.
Import Notion.






End DatabaseStats.

(** ** 3uploadyoutube.js: the file check and [uploadVideoById] *)

Module UploadYoutube.
Import Notion.

(** What [validateVideoFile] returns when the file passes. *)
Record video_file := {
  file_filePath : string;
  file_fileName : string;
  file_fileSize : N;
  file_extension : string }.

Inductive file_check :=
| ValidFile (file : video_file)
| InvalidFile (error : string).

Definition supportedFormats : list string :=
  [ ".mp4"; ".mov"; ".avi"; ".wmv"; ".flv"; ".webm"; ".mkv" ].

(** 128 GB and 1 MB *)
Definition maxSize : N := 128 * 1024 * 1024 * 1024.
Definition minSize : N := 1024 * 1024.

Definition validateVideoFile (filePath : string) (files : gmap string N) : file_check :=
  match files !! filePath with
  | None => InvalidFile "❌ Arquivo não encontrado"
  | Some fileSize =>
      let fileName := Path.basename filePath in
      let extension := Js.toLowerCase (Path.extname fileName) in
      if negb (bool_decide (extension ∈ supportedFormats))
      then InvalidFile ("❌ Formato não suportado: " +:+ extension)
      else if (maxSize <? fileSize)%N
      then InvalidFile ("❌ Arquivo muito grande: " +:+ pretty fileSize +:+ " bytes")
      else if (fileSize <? minSize)%N
      then InvalidFile ("❌ Arquivo muito pequeno: " +:+ pretty fileSize +:+ " bytes")
      else ValidFile {| file_filePath := filePath; file_fileName := fileName;
                        file_fileSize := fileSize; file_extension := extension |}
  end.

(** The object [uploadVideoById] returns from its [try] block. *)
Record final_result := {
  final_success : bool;
  final_pageId : string;
  final_videoData : FetchVideos.video_data;
  final_uploadResult : upload_result;
  final_downloadResult : option Download.download_report }.

Section Upload.

Variable tempDir : string.
Variable net : string -> DriveDownloader.attempt.
Variable machine : Download.directory.

(** [uploadToYouTubeComplete(videoData, filePath)]: the publication on
    YouTube, given from outside.  It reads the file and never throws: a
    failure is an outcome whose [success] is [false]. *)
Variable uploadToYouTubeComplete :
  FetchVideos.video_data -> string -> gmap string N -> upload_result.

(** The [catch] block.  Its [return] reads [videoData], a constant of the
    [try] block that is not in scope there: evaluating it throws a
    [ReferenceError], after the record was marked and the file removed. *)
Definition caught (pageId e : string) (fileToCleanup : option string)
    (files : gmap string N) (s : state) : result final_result * gmap string N * state :=
  let s' := (try_catch (UpdateNotionUtil.markAsError pageId e) (fun _ => ret tt) s).2 in
  let files' :=
    match fileToCleanup with
    | Some f => DriveFiles.cleanupTempFile f files
    | None => files
    end in
  (Throw "videoData is not defined", files', s').

(** Steps 3 to 5 of the [try] block: the upload, the update of the record
    and the removal of the file of a failed upload. *)
Definition publish (pageId : string) (videoData : FetchVideos.video_data)
    (filePath : string) (fileToCleanup : option string)
    (downloadResult : option Download.download_report)
    (files : gmap string N) (s : state) : result final_result * gmap string N * state :=
  let uploadResult := uploadToYouTubeComplete videoData filePath files in
  let s' := (try_catch (UpdateNotionUtil.markAsUploaded pageId uploadResult ;;; ret tt)
               (fun _ => ret tt) s).2 in
  let files' :=
    match fileToCleanup with
    | Some f => if negb (success uploadResult)
                then DriveFiles.cleanupTempFile f files else files
    | None => files
    end in
  (Ok {| final_success := success uploadResult;
         final_pageId := pageId;
         final_videoData := videoData;
         final_uploadResult := uploadResult;
         final_downloadResult := downloadResult |},
   files', s').

(** [uploadVideoById(pageId, filePath)]; [filePath] is [None] when the
    argument is left out. *)
Definition uploadVideoById (pageId : string) (filePath : option string)
    (files : gmap string N) (s : state) : result final_result * gmap string N * state :=
  match FetchVideos.fetchVideoById pageId s with
  | (Throw e, s) => caught pageId e None files s
  | (Ok videoData, s) =>
      if truthy_string filePath
      then publish pageId videoData (default EmptyString filePath) None None files s
      else
        match Download.downloadVideoById tempDir net machine pageId files s with
        | (Throw e, s) => caught pageId e None files s
        | (Ok run, s) =>
            let downloadResult := Download.report run in
            let files := Download.files_after run in
            if negb (Download.success downloadResult)
            then caught pageId
                   ("Falha no download: "
                    +:+ default "undefined" (Download.error downloadResult))
                   None files s
            else
              match Download.downloadResult downloadResult with
              | Some file =>
                  publish pageId videoData (Download.valid_filePath file)
                    (Some (Download.valid_filePath file)) (Some downloadResult) files s
              | None =>
                  caught pageId "Cannot read properties of undefined (reading 'filePath')"
                    None files s
              end
        end
  end.

(** [main]: the exit status ([true] for 0), the files and the service
    after [node 3uploadyoutube.js ARGS]. *)
Definition main (args : list string) (files : gmap string N) (s : state)
  : bool * gmap string N * state :=
  match args with
  | pageId :: rest =>
      if Js.truthy pageId then
        match uploadVideoById pageId (head rest) files s with
        | (Ok result, files', s') => (final_success result, files', s')
        | (Throw _, files', s') => (false, files', s')
        end
      else (false, files, s)
  | [] => (false, files, s)
  end.

End Upload.

End UploadYoutube.

(** ** run-pipeline.js: the commands of a complete run *)

Module Plan.
Import RunPipeline.

(** Steps 3 to 5 for a page; nothing in preview mode. *)
Definition transfers (o : pipeline_options) (page : string) : list (list string) :=
  if preview o then []
  else [ [ "node"; "2downloadvideo.js"; page ];
         [ "node"; "3uploadyoutube.js"; page ];
         [ "node"; "4updatenotion.js"; page ] ].

(** The command lines of a complete run that selects [page], in order. *)
Definition plan (o : pipeline_options) (page : string) : list (list string) :=
  (if sync o then [ [ "node"; "5syncgdrive.js" ] ] else [])
  ++ [ [ "node"; "1fetchvideos.js" ] ]
  ++ transfers o page.

End Plan.

(** ** More concrete situations *)

Module Cases.
Import Notion Scenario.


Definition forced_pass : SyncGdrive.options :=
  {| SyncGdrive.dryRun := false; SyncGdrive.limit := None;
     SyncGdrive.skipExisting := false |}.

(** A body of two kilobytes, delivered by every candidate. *)
Definition small_video : DriveDownloader.attempt :=
  DriveDownloader.Response
    {| DriveDownloader.status := 200;
       DriveDownloader.content_type := Some "video/mp4";
       DriveDownloader.content_length := Some "2048";
       DriveDownloader.body := DriveDownloader.Finished (Some 2048%N) |}.

Definition small_delivers (url : string) : DriveDownloader.attempt := small_video.

(** An upload that fails, whatever it is given. *)
Definition upload_fails (videoData : FetchVideos.video_data) (filePath : string)
    (files : gmap string N) : upload_result := failed_outcome.

(** A pending record with a link to a file of the Drive. *)
Definition pending_page : page :=
  {| page_id := "page-7";
     properties :=
       list_to_map
         [ ("Video Title", Title [ "Sermon 7" ]);
           ("Drive Link",
            Url "https://drive.google.com/file/d/1AbC_dEf-0123456789xyzXYZ/view?usp=sharing");
           ("Upload Status", Select "Pending") ];
     created_time := 1767000000000;
     last_edited_time := 1767000000000 |}.


End Cases.
(** * Properties of the identifier extraction *)

Section Extraction.
Import DriveDownloader.

Lemma take_while_all (p : ascii -> bool) (s : string) :
  Js.forall_chars p (Js.take_while p s) = true.
Proof.
  induction s as [|c rest IH]; simpl; [reflexivity|].
  destruct (p c) eqn:Hc; simpl; [|reflexivity].
  rewrite Hc. exact IH.
Qed.

Lemma capture_after_id_chars (lit s fileId : string) :
  Js.capture_after lit s = Some fileId ->
  Js.truthy fileId = true /\ Js.forall_chars Js.is_id_char fileId = true.
Proof.
  induction s as [|c rest IH]; simpl.
  - destruct (Js.strip_prefix lit EmptyString) as [tail|]; [|discriminate].
    destruct (Js.truthy (Js.take_while Js.is_id_char tail)) eqn:Hrun; [|discriminate].
    intros [= <-]. split; [exact Hrun | apply take_while_all].
  - destruct (Js.strip_prefix lit (String c rest)) as [tail|].
    + destruct (Js.truthy (Js.take_while Js.is_id_char tail)) eqn:Hrun.
      * intros [= <-]. split; [exact Hrun | apply take_while_all].
      * exact IH.
    + exact IH.
Qed.

Lemma capture_whole_id_chars (s fileId : string) :
  Js.capture_whole s = Some fileId ->
  Js.truthy fileId = true /\ Js.forall_chars Js.is_id_char fileId = true.
Proof.
  unfold Js.capture_whole.
  destruct (Js.truthy s && Js.forall_chars Js.is_id_char s) eqn:H; [|discriminate].
  intros [= <-]. apply andb_prop in H. exact H.
Qed.

(** Whatever pattern matched, the identifier is a non-empty run of letters,
    digits, hyphens and underscores: the second check of
    [extractAndValidateDriveId] never fires. *)
Lemma extracted_id_chars (url fileId : string) :
  extractFileIdFromUrl url = Ok fileId ->
  Js.truthy fileId = true /\ Js.forall_chars Js.is_id_char fileId = true.
Proof.
  unfold extractFileIdFromUrl, patterns. simpl.
  destruct (Js.capture_after "/file/d/" url) eqn:H1;
    [intros [= <-]; eapply capture_after_id_chars; eassumption|].
  destruct (Js.capture_after "/open?id=" url) eqn:H2;
    [intros [= <-]; eapply capture_after_id_chars; eassumption|].
  destruct (Js.capture_after "/d/" url) eqn:H3;
    [intros [= <-]; eapply capture_after_id_chars; eassumption|].
  destruct (Js.capture_after "id=" url) eqn:H4;
    [intros [= <-]; eapply capture_after_id_chars; eassumption|].
  destruct (Js.capture_whole url) eqn:H5;
    [intros [= <-]; eapply capture_whole_id_chars; eassumption|].
  discriminate.
Qed.

(** A link no pattern matches makes the pre-step throw as well. *)
Lemma extractAndValidateDriveId_no_match (driveLink e : string) :
  extractFileIdFromUrl driveLink = Throw e ->
  DownloadVideo.extractAndValidateDriveId driveLink
  = Throw ("Falha ao extrair ID do Drive: " +:+ e).
Proof.
  intros H. unfold DownloadVideo.extractAndValidateDriveId. rewrite H. reflexivity.
Qed.

(** C10.  When a pattern of [extractFileIdFromUrl] matched the link and
    extracted [fileId]: [extractAndValidateDriveId] throws if [fileId] has
    fewer than 20 characters or contains a character outside letters,
    digits, hyphen and underscore; otherwise it returns exactly [fileId],
    the identifier of the first matching pattern. *)
Theorem extractAndValidateDriveId_checks (driveLink fileId : string) :
  extractFileIdFromUrl driveLink = Ok fileId ->
  ((String.length fileId < 20)%nat \/ Js.forall_chars Js.is_id_char fileId = false ->
   exists e, DownloadVideo.extractAndValidateDriveId driveLink = Throw e)
  /\ ((20 <= String.length fileId)%nat -> Js.forall_chars Js.is_id_char fileId = true ->
      DownloadVideo.extractAndValidateDriveId driveLink = Ok fileId).
Proof.
  intros Hid.
  destruct (extracted_id_chars _ _ Hid) as [Hne Hchars].
  unfold DownloadVideo.extractAndValidateDriveId, DownloadVideo.validIdPattern.
  rewrite Hid, Hne, Hchars. simpl.
  split.
  - intros [Hshort|Hbad].
    + apply Nat.ltb_lt in Hshort. rewrite Hshort. eexists. reflexivity.
    + congruence.
  - intros Hlong _.
    destruct (String.length fileId <? 20)%nat eqn:Hlt; [|reflexivity].
    apply Nat.ltb_lt in Hlt. lia.
Qed.

Lemma extractAndValidateDriveId_checks_witness :
  DownloadVideo.extractAndValidateDriveId
    "https://drive.google.com/file/d/1AbC_dEf-0123456789xyzXYZ/view?usp=sharing"
  = Ok "1AbC_dEf-0123456789xyzXYZ".
Proof.
  apply (extractAndValidateDriveId_checks
           "https://drive.google.com/file/d/1AbC_dEf-0123456789xyzXYZ/view?usp=sharing"
           "1AbC_dEf-0123456789xyzXYZ").
  - reflexivity.
  - simpl. lia.
  - reflexivity.
Defined.

Example short_id_rejected :
  DownloadVideo.extractAndValidateDriveId "https://drive.google.com/file/d/abc123/view"
  = Throw "Falha ao extrair ID do Drive: ❌ ID do arquivo parece inválido".
Proof. reflexivity. Qed.

Example first_pattern_wins :
  extractFileIdFromUrl "https://drive.google.com/file/d/AAA/view?id=BBB" = Ok "AAA".
Proof. reflexivity. Qed.

End Extraction.

(** * Properties of the download loop *)

Section DownloadLoop.
Import DriveDownloader.

Variable tempDir : string.
Variable net : string -> attempt.

Lemma attemptUrl_markup (path url : string) (files : gmap string N) :
  is_markup (net url) = true ->
  attemptUrl net path url files = (Markup, files).
Proof.
  unfold is_markup, attemptUrl.
  destruct (net url) as [e|r]; [discriminate|].
  intros ->. reflexivity.
Qed.

Lemma attemptUrl_streams (path url : string) (files : gmap string N) (n : N) :
  streams (net url) n = true -> n <> 0%N ->
  attemptUrl net path url files = (Saved n, <[path := n]> files).
Proof.
  unfold streams, attemptUrl.
  destruct (net url) as [e|r]; [discriminate|].
  destruct (Js.includes "text/html" (default EmptyString (content_type r))); [discriminate|].
  simpl. destruct (body r) as [[m|]|]; try discriminate.
  intros Hm%N.eqb_eq Hn. subst m.
  destruct (n =? 0)%N eqn:Hz; [apply N.eqb_eq in Hz; contradiction|reflexivity].
Qed.

(** Markup answers are skipped one after the other, and the first
    candidate whose body streams to a non-empty file ends the loop. *)
Lemma tryUrls_first_success (path name : string) (pre : list string) :
  forall (u : string) (post : list string) (files : gmap string N)
         (log : list string) (n : N),
    Forall (fun v => is_markup (net v) = true) pre ->
    streams (net u) n = true -> n <> 0%N ->
    tryUrls net path name (pre ++ u :: post) files log
    = {| outcome := Ok {| filePath := path; fileName := name;
                          fileSize := n; mimeType := "video/mp4" |};
         disk := <[path := n]> files;
         requested := log ++ pre ++ [u] |}.
Proof.
  induction pre as [|v pre IH]; intros u post files log n Hpre Hu Hn; simpl.
  - rewrite (attemptUrl_streams _ _ _ _ Hu Hn). reflexivity.
  - inversion Hpre as [|? ? Hv Hrest]; subst.
    rewrite (attemptUrl_markup _ _ _ Hv).
    rewrite (IH u post files (log ++ [v]) n Hrest Hu Hn).
    rewrite <- app_assoc. reflexivity.
Qed.

Lemma attemptUrl_error (path url e : string) (files : gmap string N) :
  candidate_error (net url) = Some e ->
  exists files', attemptUrl net path url files = (Failure e, files')
                 /\ delete path files' = delete path files.
Proof.
  unfold candidate_error, attemptUrl.
  destruct (net url) as [e0|r].
  - intros [= ->]. eexists. split; reflexivity.
  - destruct (Js.includes "text/html" (default EmptyString (content_type r))); [discriminate|].
    destruct (body r) as [[m|]|e0 [m|]].
    + destruct (m =? 0)%N; [|discriminate].
      intros [= <-]. eexists. split; [reflexivity|]. apply delete_delete_eq.
    + intros [= <-]. eexists. split; [reflexivity|]. apply delete_delete_eq.
    + intros [= ->]. eexists. split; [reflexivity|]. apply delete_insert_eq.
    + intros [= ->]. eexists. split; reflexivity.
Qed.

Lemma zero_byte_fails (a : attempt) :
  is_markup a || streams a 0 = true -> fails a = true.
Proof.
  unfold fails, is_markup, streams, candidate_error.
  destruct a as [e|r]; [discriminate|].
  destruct (Js.includes "text/html" (default EmptyString (content_type r))); [reflexivity|].
  simpl. destruct (body r) as [[m|]|]; try discriminate.
  intros ->. reflexivity.
Qed.

Lemma zero_byte_error (a : attempt) :
  is_markup a = false -> streams a 0 = true ->
  candidate_error a = Some "❌ Arquivo baixado está vazio".
Proof.
  unfold is_markup, streams, candidate_error.
  destruct a as [e|r]; [discriminate|].
  intros ->. simpl. destruct (body r) as [[m|]|]; try discriminate.
  intros ->. reflexivity.
Qed.

(** When no candidate delivers, every candidate is requested, what a
    failed candidate left on disk is removed, and the run throws. *)
Lemma tryUrls_exhausted (path name : string) (urls : list string) :
  forall (files : gmap string N) (log : list string),
    Forall (fun v => fails (net v) = true) urls ->
    files !! path = None ->
    tryUrls net path name urls files log
    = {| outcome := Throw (exhausted_message net urls);
         disk := files;
         requested := log ++ urls |}.
Proof.
  induction urls as [|u rest IH]; intros files log Hall Hnone; simpl.
  - rewrite app_nil_r. reflexivity.
  - inversion Hall as [|? ? Hu Hrest]; subst.
    assert (Hlog : forall l : list string, (log ++ [u]) ++ l = log ++ u :: l)
      by (intros l; rewrite <- app_assoc; reflexivity).
    destruct (is_markup (net u)) eqn:Hm.
    + rewrite (attemptUrl_markup _ _ _ Hm).
      rewrite (IH files (log ++ [u]) Hrest Hnone), Hlog.
      destruct rest as [|w rest']; [|reflexivity].
      unfold exhausted_message. simpl.
      unfold is_markup, candidate_error in *.
      destruct (net u) as [e|r]; [discriminate|]. rewrite Hm. reflexivity.
    + unfold fails in Hu. rewrite Hm in Hu. simpl in Hu.
      destruct (candidate_error (net u)) as [e|] eqn:He; [|discriminate].
      destruct (attemptUrl_error path u e files He) as (files' & -> & Hdel).
      rewrite Hdel, (delete_id _ _ Hnone).
      destruct rest as [|w rest'].
      * unfold exhausted_message. simpl. rewrite He. reflexivity.
      * rewrite (IH files (log ++ [u]) Hrest Hnone), Hlog. reflexivity.
Qed.

Lemma downloadUrls_distinct (fileId : string) : NoDup (downloadUrls fileId).
Proof.
  unfold downloadUrls.
  repeat (apply NoDup_cons; split;
          [rewrite ?elem_of_cons, elem_of_nil; simpl; intros H;
           repeat (destruct H as [H|H]; [discriminate H|]); exact H|]).
  apply NoDup_nil. exact I.
Qed.

(** C2.  When the candidates before the k-th answer with a markup content
    type and the k-th streams to a non-empty file, [downloadFromDrive]
    returns the payload of that candidate (path and name built from the
    identifier, the size of the file written, type video/mp4), requests the
    candidates up to the k-th only, and requests none of the later ones. *)
Theorem downloadFromDrive_first_binary
    (driveUrl fileId : string) (files : gmap string N)
    (pre : list string) (u : string) (post : list string) (n : N) :
  extractFileIdFromUrl driveUrl = Ok fileId ->
  downloadUrls fileId = pre ++ u :: post ->
  Forall (fun v => is_markup (net v) = true) pre ->
  streams (net u) n = true ->
  n <> 0%N ->
  let name := "video_" +:+ fileId +:+ ".mp4" in
  let path := tempDir +:+ "/" +:+ name in
  let r := downloadFromDrive tempDir net driveUrl files in
  outcome r = Ok {| filePath := path; fileName := name;
                    fileSize := n; mimeType := "video/mp4" |}
  /\ requested r = pre ++ [u]
  /\ Forall (fun v => v ∉ requested r) post
  /\ disk r !! path = Some n.
Proof.
  intros Hid Hurls Hpre Hu Hn name path r.
  assert (Hr : r = {| outcome := Ok {| filePath := path; fileName := name;
                                       fileSize := n; mimeType := "video/mp4" |};
                      disk := <[path := n]> (delete path files);
                      requested := [] ++ pre ++ [u] |}).
  { unfold r, downloadFromDrive. rewrite Hid. fold name. fold path.
    rewrite Hurls. apply tryUrls_first_success; assumption. }
  rewrite Hr. simpl. repeat split.
  - pose proof (downloadUrls_distinct fileId) as Hnd. rewrite Hurls in Hnd.
    apply Forall_forall. intros v Hv Hin.
    assert (Hsplit : pre ++ u :: post = (pre ++ [u]) ++ post)
      by (rewrite <- app_assoc; reflexivity).
    rewrite Hsplit in Hnd. apply NoDup_app in Hnd as (_ & Hdisj & _).
    exact (Hdisj v Hin Hv).
  - apply lookup_insert_eq.
Qed.

(** C3, as the code has it.  When every candidate answers with markup or
    streams an empty body, [downloadFromDrive] returns no payload and
    throws.  What it throws is the error of the last candidate ("empty
    file") when that candidate streamed an empty body, and the fixed "all
    URLs failed" message, which carries no candidate's error, when the last
    candidate answered with markup.  All candidates were requested and no
    file is left behind. *)
Theorem downloadFromDrive_exhausted
    (driveUrl fileId : string) (files : gmap string N) :
  extractFileIdFromUrl driveUrl = Ok fileId ->
  Forall (fun v => is_markup (net v) || streams (net v) 0 = true) (downloadUrls fileId) ->
  let path := tempDir +:+ "/" +:+ "video_" +:+ fileId +:+ ".mp4" in
  let final := "https://drive.google.com/uc?id=" +:+ fileId +:+ "&export=download" in
  let r := downloadFromDrive tempDir net driveUrl files in
  outcome r = Throw (if is_markup (net final)
                     then "❌ Todas as URLs de download falharam"
                     else "❌ Arquivo baixado está vazio")
  /\ is_ok (outcome r) = false
  /\ requested r = downloadUrls fileId
  /\ disk r !! path = None.
Proof.
  intros Hid Hall path final r.
  assert (Hr : r = {| outcome := Throw (exhausted_message net (downloadUrls fileId));
                      disk := delete path files;
                      requested := [] ++ downloadUrls fileId |}).
  { unfold r, downloadFromDrive. rewrite Hid. fold path.
    apply tryUrls_exhausted; [|apply lookup_delete_eq].
    eapply Forall_impl; [exact Hall|]. intros v Hv. apply zero_byte_fails, Hv. }
  assert (Hlast : is_markup (net final) || streams (net final) 0 = true).
  { rewrite Forall_forall in Hall. apply Hall.
    unfold downloadUrls, final. rewrite !elem_of_cons. tauto. }
  rewrite Hr. simpl. repeat split; [|apply lookup_delete_eq].
  unfold exhausted_message. simpl. fold final.
  destruct (is_markup (net final)) eqn:Hm.
  - unfold is_markup, candidate_error in *.
    destruct (net final) as [e|r0]; [discriminate|]. rewrite Hm. reflexivity.
  - simpl in Hlast. rewrite (zero_byte_error _ Hm Hlast). reflexivity.
Qed.

End DownloadLoop.

(** * Small checks of the string functions *)

Example extract_view_link :
  DriveDownloader.extractFileIdFromUrl
    "https://drive.google.com/file/d/1AbC_dEf-0123456789xyzXYZ/view?usp=sharing"
  = Ok "1AbC_dEf-0123456789xyzXYZ".
Proof. reflexivity. Qed.

Example extract_open_link :
  DriveDownloader.extractFileIdFromUrl "https://drive.google.com/open?id=abc123&x=1"
  = Ok "abc123".
Proof. reflexivity. Qed.

Example strip_extension_mp4 : Js.strip_extension "Sermon 1.mp4" = "Sermon 1".
Proof. reflexivity. Qed.

Example strip_extension_two_dots : Js.strip_extension "a.b.mp4" = "a.b".
Proof. reflexivity. Qed.

Example trim_lower : Js.trim (Js.toLowerCase "  SerMon 1 ") = "sermon 1".
Proof. reflexivity. Qed.


(** * Properties of the Notion service *)

Section Service.
Import Notion.

Lemma request_served {A} (serve : M A) (s : state) :
  faults s = [] -> request serve s = serve (next_request s).
Proof. unfold request. intros ->. reflexivity. Qed.

Lemma next_request_quiet (s : state) :
  faults s = [] -> faults (next_request s) = [].
Proof. simpl. intros ->. reflexivity. Qed.

(** A request either fails without touching the pages or is served. *)
Lemma request_cases {A} (serve : M A) (s : state) :
  (exists e, request serve s = (Throw e, next_request s))
  \/ request serve s = serve (next_request s).
Proof.
  unfold request. destruct (faults s) as [|[|] later]; eauto.
Qed.

Lemma pages_create_cases (props : gmap string property) (s : state) :
  (exists e s', pages_create props s = (Throw e, s') /\ db s' = db s)
  \/ (exists p s', pages_create props s = (Ok p, s')
                   /\ properties p = props /\ db s' = db s ++ [p]).
Proof.
  unfold pages_create.
  match goal with |- context [request ?serve s] =>
    destruct (request_cases serve s) as [[e He]|Hserved] end.
  - left. exists e, (next_request s). split; [exact He|reflexivity].
  - right. rewrite Hserved. simpl. eexists _, _. repeat split.
Qed.

Lemma databases_query_cases (f : option filter) (by_title : bool)
    (page_size : option nat) (s : state) :
  let hits := match f with
              | Some f => List.filter (matches f) (db s)
              | None => db s
              end in
  let ordered := if by_title then sort_by_title hits else hits in
  (exists e, databases_query f by_title page_size s = (Throw e, next_request s))
  \/ databases_query f by_title page_size s
     = (Ok (match page_size with Some n => take n ordered | None => ordered end),
        next_request s).
Proof.
  simpl. unfold databases_query.
  match goal with |- context [request ?serve s] =>
    destruct (request_cases serve s) as [[e He]|Hserved] end.
  - left. eauto.
  - right. rewrite Hserved. reflexivity.
Qed.

End Service.

(** * Properties of the reconciliation *)

Section Reconciliation.
Import Notion SyncGdrive.

(** The titles and links held by the lookup are those of the pages it was
    built from. *)
Lemma collect_titles (pages : list page) :
  forall (acc : gset string * gset string) (x : string),
    x ∈ (List.fold_left collect pages acc).1
    <-> x ∈ acc.1
        \/ exists q t, q ∈ pages /\ first_title "Video Title" q = Some t
                       /\ Js.truthy t = true /\ x = normalize t.
Proof.
  induction pages as [|p rest IH]; intros acc x; simpl.
  - split; [auto|]. intros [H|(q & t & Hq & _)]; [exact H|]. inversion Hq.
  - rewrite IH. unfold collect. simpl. split.
    + intros [H|(q & t & Hq & Ht & Hne & Hx)].
      * destruct (first_title "Video Title" p) as [t|] eqn:Ht; [|auto].
        destruct (Js.truthy t) eqn:Hne; [|auto].
        apply elem_of_union in H as [H|H]; [|auto].
        apply elem_of_singleton in H. right. exists p, t.
        repeat split; [left|exact Ht|exact Hne|exact H].
      * right. exists q, t. repeat split; [right; exact Hq|exact Ht|exact Hne|exact Hx].
    + intros [H|(q & t & Hq & Ht & Hne & Hx)].
      * left. destruct (first_title "Video Title" p) as [t|]; [|exact H].
        destruct (Js.truthy t); [|exact H]. apply elem_of_union. right. exact H.
      * apply elem_of_cons in Hq as [->|Hq].
        -- left. rewrite Ht, Hne. apply elem_of_union. left.
           apply elem_of_singleton. exact Hx.
        -- right. exists q, t. repeat split; assumption.
Qed.

Lemma collect_links (pages : list page) :
  forall (acc : gset string * gset string) (x : string),
    x ∈ (List.fold_left collect pages acc).2
    <-> x ∈ acc.2
        \/ exists q, q ∈ pages /\ url_of "Drive Link" q = Some x /\ Js.truthy x = true.
Proof.
  induction pages as [|p rest IH]; intros acc x; simpl.
  - split; [auto|]. intros [H|(q & Hq & _)]; [exact H|]. inversion Hq.
  - rewrite IH. unfold collect. simpl. split.
    + intros [H|(q & Hq & Hl & Hne)].
      * destruct (url_of "Drive Link" p) as [l|] eqn:Hl; [|auto].
        destruct (Js.truthy l) eqn:Hne; [|auto].
        apply elem_of_union in H as [H|H]; [|auto].
        apply elem_of_singleton in H. subst x. right. exists p.
        repeat split; [left|exact Hl|exact Hne].
      * right. exists q. repeat split; [right; exact Hq|exact Hl|exact Hne].
    + intros [H|(q & Hq & Hl & Hne)].
      * left. destruct (url_of "Drive Link" p) as [l|]; [|exact H].
        destruct (Js.truthy l); [|exact H]. apply elem_of_union. right. exact H.
      * apply elem_of_cons in Hq as [->|Hq].
        -- left. rewrite Hl, Hne. apply elem_of_union. left.
           apply elem_of_singleton. reflexivity.
        -- right. exists q. repeat split; assumption.
Qed.

Lemma lookup_of_titles (pages : list page) (x : string) :
  x ∈ (lookup_of pages).1
  <-> exists q t, q ∈ pages /\ first_title "Video Title" q = Some t
                  /\ Js.truthy t = true /\ x = normalize t.
Proof.
  unfold lookup_of. rewrite collect_titles. simpl. split; [|auto].
  intros [H|H]; [|exact H]. apply not_elem_of_empty in H. contradiction.
Qed.

Lemma lookup_of_links (pages : list page) (x : string) :
  x ∈ (lookup_of pages).2
  <-> exists q, q ∈ pages /\ url_of "Drive Link" q = Some x /\ Js.truthy x = true.
Proof.
  unfold lookup_of. rewrite collect_links. simpl. split; [|auto].
  intros [H|H]; [|exact H]. apply not_elem_of_empty in H. contradiction.
Qed.

(** [getExistingVideosFromNotion] reads the first hundred pages, and
    changes none. *)
Lemma getExistingVideosFromNotion_cases (s : state) :
  (exists e, getExistingVideosFromNotion s = (Throw e, next_request s))
  \/ getExistingVideosFromNotion s = (Ok (lookup_of (take 100 (db s))), next_request s).
Proof.
  unfold getExistingVideosFromNotion, bind.
  destruct (databases_query_cases None false (Some 100%nat) s) as [[e He]|Hq];
    simpl in *.
  - left. exists e. rewrite He. reflexivity.
  - right. rewrite Hq. reflexivity.
Qed.

Lemma page_of_title (v : video) (p : page) :
  page_of v p -> first_title "Video Title" p = Some (name v).
Proof. unfold page_of, first_title. intros ->. reflexivity. Qed.

Lemma page_of_link (v : video) (p : page) :
  page_of v p -> url_of "Drive Link" p = Some (driveLink v).
Proof. unfold page_of, url_of. intros ->. reflexivity. Qed.

Lemma page_of_status (v : video) (p : page) :
  page_of v p -> select_of "Upload Status" p = Some "Pending".
Proof. unfold page_of, select_of. intros ->. reflexivity. Qed.

Local Ltac same_counts :=
  simpl;
  match goal with
  | |- (Ok (?x, ?y), _) = (Ok (?x', ?y'), _) =>
      replace x with x' by lia; replace y with y' by lia; reflexivity
  end.

(** The loop appends one page for each video whose creation is served, in
    order, and counts the others as errors; a dry run appends nothing and
    counts every video as added. *)
Lemma addAll_spec (dry : bool) (videos : list video) :
  forall (a e : nat) (s : state),
  exists (done : list video) (created : list page) (s' : state),
    addAll dry videos a e s
    = (Ok (if dry then (a + List.length videos)%nat else (a + List.length created)%nat,
           if dry then e else (e + (List.length videos - List.length created))%nat), s')
    /\ db s' = db s ++ created
    /\ sublist done videos
    /\ Forall2 page_of done created
    /\ (dry = true -> created = [])
    /\ (dry = false -> faults s = [] -> done = videos /\ faults s' = []).
Proof.
  induction videos as [|v rest IH]; intros a e s.
  - exists [], [], s. simpl. unfold ret.
    rewrite app_nil_r, !Nat.add_0_r.
    split; [destruct dry; reflexivity|].
    split; [reflexivity|]. split; [apply sublist_nil|].
    split; [constructor|]. split; [reflexivity|]. auto.
  - simpl. unfold bind, try_catch, ret. destruct dry.
    + destruct (IH (S a) e s)
        as (done & created & s' & Hrun & Hdb & Hsub & Hpages & Hdry & _).
      exists done, created, s'. rewrite Hrun.
      split.
      { same_counts. }
      split; [exact Hdb|]. split; [apply sublist_cons; exact Hsub|].
      split; [exact Hpages|]. split; [exact Hdry|]. discriminate.
    + unfold addVideoToNotion.
      destruct (pages_create_cases (list_to_map (new_properties v)) s)
        as [(err & s1 & Hcreate & Hdb1)|(p & s1 & Hcreate & Hprops & Hdb1)];
        rewrite Hcreate.
      * destruct (IH a (S e) s1)
          as (done & created & s' & Hrun & Hdb & Hsub & Hpages & _ & _).
        exists done, created, s'. rewrite Hrun.
        assert (Hlen : (List.length created <= List.length rest)%nat).
        { rewrite <- (Forall2_length _ _ _ Hpages). apply sublist_length, Hsub. }
        split.
        { same_counts. }
        split; [rewrite Hdb, Hdb1; reflexivity|].
        split; [apply sublist_cons; exact Hsub|].
        split; [exact Hpages|]. split; [discriminate|].
        intros _ Hquiet. exfalso. revert Hcreate. unfold pages_create.
        rewrite (request_served _ _ Hquiet). discriminate.
      * destruct (IH (S a) e s1)
          as (done & created & s' & Hrun & Hdb & Hsub & Hpages & _ & Hall).
        exists (v :: done), (p :: created), s'. rewrite Hrun.
        assert (Hlen : (List.length created <= List.length rest)%nat).
        { rewrite <- (Forall2_length _ _ _ Hpages). apply sublist_length, Hsub. }
        assert (Hs1 : faults s = [] -> faults s1 = []).
        { intros Hquiet. revert Hcreate. unfold pages_create.
          rewrite (request_served _ _ Hquiet). intros [= _ <-]. simpl.
          rewrite Hquiet. reflexivity. }
        split.
        { same_counts. }
        split; [rewrite Hdb, Hdb1, <- app_assoc; reflexivity|].
        split; [apply sublist_skip; exact Hsub|].
        split; [constructor; [exact Hprops|exact Hpages]|].
        split; [discriminate|].
        intros _ Hquiet. destruct (Hall eq_refl (Hs1 Hquiet)) as [-> Hq'].
        split; [reflexivity|exact Hq'].
Qed.

Lemma getExistingVideosFromNotion_served (s : state) :
  faults s = [] ->
  getExistingVideosFromNotion s = (Ok (lookup_of (take 100 (db s))), next_request s).
Proof.
  intros Hquiet.
  unfold getExistingVideosFromNotion, bind, databases_query.
  rewrite (request_served _ _ Hquiet). reflexivity.
Qed.

(** The videos of a listing, as [syncVideos] sees them. *)
Lemma slice0_sublist {A} (n : Z) (l : list A) : sublist (slice0 n l) l.
Proof. unfold slice0. destruct (0 <=? n)%Z; apply sublist_take. Qed.

Lemma apply_limit_sublist {A} (lim : option Z) (l : list A) :
  sublist (apply_limit lim l) l.
Proof.
  unfold apply_limit. destruct lim as [n|]; [|reflexivity].
  destruct (n =? 0)%Z; [reflexivity|apply slice0_sublist].
Qed.

Lemma length_zero_nil {A} (l : list A) : (List.length l =? 0)%nat = true -> l = [].
Proof. destruct l; [reflexivity|discriminate]. Qed.


Lemma is_new_true (o : options) (existing : gset string * gset string) (v : video) :
  skipExisting o = true ->
  is_new o existing v = true ->
  (normalize (name v) ∉ existing.1) /\ (driveLink v ∉ existing.2).
Proof.
  unfold is_new. intros ->. simpl. intros H%negb_true_iff%orb_false_elim.
  destruct H as [H1 H2]. split.
  - apply bool_decide_eq_false in H1. exact H1.
  - apply bool_decide_eq_false in H2. exact H2.
Qed.

Lemma is_new_false (o : options) (existing : gset string * gset string) (v : video) :
  skipExisting o = true ->
  is_new o existing v = false ->
  (normalize (name v) ∈ existing.1) \/ (driveLink v ∈ existing.2).
Proof.
  unfold is_new. intros ->. simpl. intros H%negb_false_iff%orb_true_elim.
  destruct H as [H|H]; apply bool_decide_eq_true in H; auto.
Qed.

Lemma length_append (a b : string) :
  String.length (a +:+ b) = (String.length a + String.length b)%nat.
Proof. induction a as [|c a IH]; simpl; [reflexivity|]. rewrite IH. reflexivity. Qed.



Lemma filter_sublist {A} (f : A -> bool) (l : list A) : sublist (List.filter f l) l.
Proof.
  induction l as [|x l IH]; simpl; [constructor|].
  destruct (f x); [apply sublist_skip|apply sublist_cons]; exact IH.
Qed.





(** What a pass that returned has done. *)
Lemma syncVideos_returned
    (files : list drive_file) (o : options) (s s' : state) (r : summary) :
  syncVideos (Ok files) o s = (Ok r, s') ->
  let videos := List.map processVideo files in
  let newVideos := List.filter (is_new o (lookup_of (take 100 (db s)))) videos in
  exists (done : list video) (created : list page),
    db s' = db s ++ created
    /\ Forall2 page_of done created
    /\ sublist done newVideos
    /\ skipped r = (List.length videos - List.length newVideos)%nat
    /\ (dryRun o = false -> added r = List.length created).
Proof.
  intros Hrun videos newVideos. revert Hrun.
  unfold syncVideos, bind, getVideosFromDrive. simpl. fold videos.
  destruct (List.length videos =? 0)%nat eqn:Hempty; simpl.
  { unfold ret. intros [= <- <-]. exists [], []. rewrite app_nil_r. simpl.
    repeat split; [constructor|apply sublist_nil_l|].
    apply length_zero_nil in Hempty. rewrite Hempty. reflexivity. }
  destruct (getExistingVideosFromNotion_cases s) as [[e He]|He]; rewrite He; simpl;
    [discriminate|].
  fold newVideos.
  destruct (List.length newVideos =? 0)%nat eqn:Hnew; simpl.
  { unfold ret. intros [= <- <-]. exists [], []. rewrite app_nil_r. simpl.
    repeat split; [constructor|apply sublist_nil_l|].
    apply length_zero_nil in Hnew. rewrite Hnew. simpl. lia. }
  destruct (addAll_spec (dryRun o) (apply_limit (limit o) newVideos) 0 0 (next_request s))
    as (done & created & s1 & Hrun & Hdb & Hsub & Hpages & _ & _).
  rewrite Hrun. simpl. unfold ret. intros [= <- <-]. exists done, created. simpl.
  split; [exact Hdb|]. split; [exact Hpages|].
  split; [etransitivity; [exact Hsub|apply apply_limit_sublist]|].
  split; [reflexivity|]. intros ->. reflexivity.
Qed.

(** A served pass over an inventory with nothing new writes nothing. *)
Lemma syncVideos_nothing_new (files : list drive_file) (o : options) (s : state) :
  faults s = [] ->
  Forall (fun v => is_new o (lookup_of (take 100 (db s))) v = false)
         (List.map processVideo files) ->
  exists (r : summary) (s' : state),
    syncVideos (Ok files) o s = (Ok r, s')
    /\ added r = 0%nat /\ errors r = 0%nat /\ db s' = db s.
Proof.
  intros Hquiet Hold.
  unfold syncVideos, bind, getVideosFromDrive. simpl.
  destruct (List.length (List.map processVideo files) =? 0)%nat; simpl.
  { eexists _, _. split; [reflexivity|]. repeat split. }
  rewrite (getExistingVideosFromNotion_served _ Hquiet). simpl.
  assert (Hnone : List.filter (is_new o (lookup_of (take 100 (db s))))
                    (List.map processVideo files) = []).
  { induction Hold as [|v l Hv _ IH]; simpl; [reflexivity|]. rewrite Hv. exact IH. }
  rewrite Hnone. simpl. eexists _, _. split; [reflexivity|]. repeat split.
Qed.

Lemma sublist_full {A} (l1 l2 : list A) :
  sublist l1 l2 -> (List.length l2 <= List.length l1)%nat -> l1 = l2.
Proof.
  induction 1 as [|x l1 l2 _ IH|x l1 l2 Hsub IH]; simpl; intros Hlen.
  - reflexivity.
  - f_equal. apply IH. lia.
  - apply sublist_length in Hsub. lia.
Qed.

Lemma shareableLink_truthy (fileId : string) : Js.truthy (shareableLink fileId) = true.
Proof. reflexivity. Qed.

(** C7, as the code has it.  Let a first pass, not a preview and with
    [skipExisting] on, return after having registered every item it did not
    skip (no cap cut it short and no page creation failed), and let the
    database then hold at most a hundred pages.  A second pass over the same
    inventory, served by the store and again with [skipExisting] on,
    returns with zero added records and changes no page. *)
Theorem second_pass_adds_nothing
    (files : list drive_file) (o1 o2 : options) (s0 s1 : state) (r1 : summary) :
  skipExisting o1 = true ->
  dryRun o1 = false ->
  skipExisting o2 = true ->
  syncVideos (Ok files) o1 s0 = (Ok r1, s1) ->
  (added r1 + skipped r1)%nat = List.length files ->
  (List.length (db s1) <= 100)%nat ->
  faults s1 = [] ->
  exists (r2 : summary) (s2 : state),
    syncVideos (Ok files) o2 s1 = (Ok r2, s2)
    /\ added r2 = 0%nat /\ errors r2 = 0%nat /\ db s2 = db s1.
Proof.
  intros Hskip1 Hdry1 Hskip2 Hrun1 Hcount Hsize Hquiet.
  destruct (syncVideos_returned _ _ _ _ _ Hrun1)
    as (done & created & Hdb & Hpages & Hsub & Hskipped & Hadded).
  set (videos := List.map processVideo files) in *.
  set (E0 := lookup_of (take 100 (db s0))) in *.
  set (newVideos := List.filter (is_new o1 E0) videos) in *.
  assert (Hle : (List.length newVideos <= List.length videos)%nat)
    by apply filter_length_le.
  assert (Hvideos : List.length videos = List.length files)
    by apply length_map.
  assert (Hdone : done = newVideos).
  { apply sublist_full; [exact Hsub|].
    rewrite (Forall2_length _ _ _ Hpages), <- (Hadded Hdry1). lia. }
  subst done.
  apply syncVideos_nothing_new; [exact Hquiet|].
  rewrite (take_ge (db s1)) by exact Hsize.
  apply Forall_forall. intros v Hv.
  destruct (is_new o2 (lookup_of (db s1)) v) eqn:Hnew2; [exfalso|reflexivity].
  destruct (is_new_true _ _ _ Hskip2 Hnew2) as [Hname Hlink].
  destruct (is_new o1 E0 v) eqn:Hnew1.
  - assert (Hin : v ∈ newVideos).
    { apply list_elem_of_In, filter_In. split; [apply list_elem_of_In, Hv|exact Hnew1]. }
    apply list_elem_of_lookup in Hin as [i Hi].
    destruct (Forall2_lookup_l _ _ _ _ _ Hpages Hi) as (p & Hp & Hvp).
    apply Hlink, lookup_of_links. exists p. split; [|split].
    + rewrite Hdb. apply elem_of_app. right. apply list_elem_of_lookup. eauto.
    + apply page_of_link, Hvp.
    + destruct (list_elem_of_In videos v) as [Hin' _].
      apply Hin', in_map_iff in Hv as (f & <- & _). apply shareableLink_truthy.
  - assert (Hmono : forall q, q ∈ take 100 (db s0) -> q ∈ db s1).
    { intros q Hq. rewrite Hdb. apply elem_of_app. left.
      eapply elem_of_sublist; [exact Hq|apply sublist_take]. }
    destruct (is_new_false _ _ _ Hskip1 Hnew1) as [H|H].
    + apply Hname. apply lookup_of_titles in H as (q & t & Hq & Ht & Hne & Hx).
      apply lookup_of_titles. exists q, t. repeat split; auto.
    + apply Hlink. apply lookup_of_links in H as (q & Hq & Hl & Hne).
      apply lookup_of_links. exists q. repeat split; auto.
Qed.

End Reconciliation.

(** * Properties of the record updates *)

Section Updates.
Import Notion.

Lemma lookup_patch (l : list (string * property)) (m : gmap string property) (k : string) :
  ((list_to_map l : gmap string property) ∪ m) !! k
  = match assoc k l with Some v => Some v | None => m !! k end.
Proof.
  induction l as [|[k' v] rest IH]; simpl.
  - rewrite (left_id_L ∅ (∪)). reflexivity.
  - rewrite <- insert_union_l, lookup_insert.
    destruct (String.eqb_spec k' k) as [->|Hne].
    + rewrite decide_True by reflexivity. reflexivity.
    + rewrite decide_False by exact Hne. exact IH.
Qed.

Lemma assoc_app (k : string) (l1 l2 : list (string * property)) :
  assoc k (l1 ++ l2) = match assoc k l1 with Some v => Some v | None => assoc k l2 end.
Proof.
  induction l1 as [|[k' v] rest IH]; simpl; [reflexivity|].
  destruct (String.eqb k' k); [reflexivity|exact IH].
Qed.

Lemma find_page_id (pageId : string) (pages : list page) (p : page) :
  find_page pageId pages = Some p -> page_id p = pageId /\ p ∈ pages.
Proof.
  unfold find_page. intros H. apply find_some in H as [Hin Hid].
  split; [apply String.eqb_eq, Hid|apply list_elem_of_In, Hin].
Qed.

(** After a patch of the page [pageId], that page is the patched one. *)
Lemma find_page_patched (pageId : string) (f : page -> page) (pages : list page) (p : page) :
  (forall q, page_id (f q) = page_id q) ->
  find_page pageId pages = Some p ->
  find_page pageId (List.map (fun q => if has_id pageId q then f q else q) pages)
  = Some (f p).
Proof.
  intros Hid. unfold find_page.
  induction pages as [|q rest IH]; simpl; [discriminate|].
  destruct (has_id pageId q) eqn:Hq.
  - intros [= ->]. unfold has_id in *. rewrite Hid, Hq. reflexivity.
  - rewrite Hq. exact IH.
Qed.

Lemma pages_update_served (pageId : string) (patch : gmap string property)
    (s : state) (p : page) :
  faults s = [] ->
  find_page pageId (db s) = Some p ->
  pages_update pageId patch s
  = (Ok (patched patch (now s) p),
     with_db (next_request s)
       (List.map (fun q => if has_id pageId q then patched patch (now s) q else q) (db s))).
Proof.
  intros Hquiet Hfind. unfold pages_update.
  rewrite (request_served _ _ Hquiet). simpl. rewrite Hfind. reflexivity.
Qed.

Lemma pages_retrieve_served (pageId : string) (s : state) (p : page) :
  faults s = [] ->
  find_page pageId (db s) = Some p ->
  pages_retrieve pageId s = (Ok p, next_request s).
Proof.
  intros Hquiet Hfind. unfold pages_retrieve.
  rewrite (request_served _ _ Hquiet). simpl. rewrite Hfind. reflexivity.
Qed.

(** An update fails without any change, or patches the pages that have the
    identifier. *)
Lemma pages_update_cases (pageId : string) (patch : gmap string property) (s : state) :
  (exists e, pages_update pageId patch s = (Throw e, next_request s))
  \/ (exists p, find_page pageId (db s) = Some p
                /\ pages_update pageId patch s
                   = (Ok (patched patch (now s) p),
                      with_db (next_request s)
                        (List.map (fun q => if has_id pageId q
                                            then patched patch (now s) q else q) (db s)))).
Proof.
  unfold pages_update.
  match goal with |- context [request ?serve s] =>
    destruct (request_cases serve s) as [[e He]|Hserved] end.
  - left. exists e. exact He.
  - rewrite Hserved. simpl. destruct (find_page pageId (db s)) as [p|] eqn:Hfind.
    + right. exists p. split; reflexivity.
    + left. eexists. reflexivity.
Qed.

End Updates.

(** * Properties of the transitions *)

Section Transitions.
Import Notion UpdateNotion.

Local Arguments Js.substring0 : simpl never.
Local Arguments reset_properties : simpl never.

Lemma patched_lookup (props : list (string * property)) (instant : Z) (p : page)
    (k : string) :
  properties (patched (list_to_map props) instant p) !! k
  = match assoc k props with Some v => Some v | None => properties p !! k end.
Proof. apply lookup_patch. Qed.

Lemma updateNotionPage_served (pageId : string) (r : upload_result) (s : state) (p : page) :
  faults s = [] ->
  find_page pageId (db s) = Some p ->
  let props := update_properties r (default (now s) (uploadDate r)) (now s) in
  updateNotionPage pageId r s
  = (Ok {| updated := true; updatedPage := pageId; updatedAt := now s;
           updatedProperties := List.map fst props |},
     with_db (next_request s)
       (List.map (fun q => if has_id pageId q
                           then patched (list_to_map props) (now s) q else q) (db s))).
Proof.
  intros Hquiet Hfind props.
  destruct (find_page_id _ _ _ Hfind) as [Hid _].
  unfold updateNotionPage, bind, formatNotionDate, clock, ret. subst props.
  destruct (uploadDate r) as [d|]; simpl;
    rewrite (pages_update_served _ _ _ _ Hquiet Hfind); simpl;
    rewrite Hid, String.eqb_refl; reflexivity.
Qed.

(** C5, as the code has it.  When the store serves the update of an
    existing record with a successful outcome that carries a URL and a
    video identifier, [updateNotionPage] leaves the record with status
    [Uploaded], with that URL as [YouTube URL] and the identifier (cut to
    2000 characters) as [Video ID].  It writes neither [Error Message] nor
    [Error Date]: what the record held there before is still there. *)
Theorem updateNotionPage_marks_uploaded
    (pageId : string) (r : upload_result) (s : state) (p : page) (u i : string) :
  success r = true ->
  videoUrl r = Some u -> Js.truthy u = true ->
  videoId r = Some i -> Js.truthy i = true ->
  faults s = [] ->
  find_page pageId (db s) = Some p ->
  exists (summary : update_summary) (s' : state) (p' : page),
    updateNotionPage pageId r s = (Ok summary, s')
    /\ find_page pageId (db s') = Some p'
    /\ select_of "Upload Status" p' = Some "Uploaded"
    /\ url_of "YouTube URL" p' = Some u
    /\ segments_of "Video ID" p' = Some [ Js.substring0 2000 i ]
    /\ properties p' !! "Error Message" = properties p !! "Error Message"
    /\ properties p' !! "Error Date" = properties p !! "Error Date".
Proof.
  intros Hok Hurl Hu Hvid Hi Hquiet Hfind.
  rewrite (updateNotionPage_served _ _ _ _ Hquiet Hfind).
  eexists _, _, _. split; [reflexivity|].
  split; [apply find_page_patched; [intros q; reflexivity|exact Hfind]|].
  unfold select_of, url_of, segments_of. rewrite !patched_lookup.
  unfold update_properties, createRichText, truthy_string.
  rewrite Hok, Hurl, Hu, Hvid, Hi. simpl.
  repeat split.
  - repeat (rewrite assoc_app; simpl).
    repeat match goal with
           | |- context [if ?b then _ else _] => destruct b; simpl
           end; reflexivity.
  - repeat (rewrite assoc_app; simpl).
    repeat match goal with
           | |- context [if ?b then _ else _] => destruct b; simpl
           end; reflexivity.
Qed.

Lemma with_db_quiet (s : state) (pages : list page) :
  faults s = [] -> faults (with_db (next_request s) pages) = [].
Proof. simpl. intros ->. reflexivity. Qed.






Section AfterUpload.

Variable toLocaleString : option Z -> string.
Variable show_number : option Q -> string.


End AfterUpload.

Lemma reset_idem (instant : Z) (q : page) :
  reset instant (reset instant q) = reset instant q.
Proof.
  unfold reset, patched. simpl. f_equal.
  rewrite (assoc_L (∪)), (idemp_L (∪)). reflexivity.
Qed.



Lemma unique_id (pages : list page) (p q : page) :
  NoDup (List.map page_id pages) ->
  p ∈ pages -> q ∈ pages -> page_id p = page_id q -> p = q.
Proof.
  induction pages as [|x rest IH]; intros Hnd Hp Hq Hid; [inversion Hp|].
  simpl in Hnd. apply NoDup_cons in Hnd as [Hx Hnd].
  apply elem_of_cons in Hp as [->|Hp]; apply elem_of_cons in Hq as [->|Hq].
  - reflexivity.
  - exfalso. apply Hx. rewrite Hid. apply list_elem_of_In, in_map, list_elem_of_In, Hq.
  - exfalso. apply Hx. rewrite <- Hid. apply list_elem_of_In, in_map, list_elem_of_In, Hp.
  - apply IH; assumption.
Qed.




(** Whatever the store does, the loop resets the pages that have the
    identifier of a page whose update was served, and only those; the
    number it returns counts the served updates. *)
Lemma resetAll_cases (pages : list page) :
  forall (cleaned : nat) (s : state),
  exists (done : list page) (s' : state),
    resetAll pages cleaned s = (Ok (cleaned + List.length done)%nat, s')
    /\ sublist done pages
    /\ db s' = List.map (fun q => if listed done q then reset (now s) q else q) (db s).
Proof.
  induction pages as [|x rest IH]; intros cleaned s.
  - exists [], s. simpl. unfold ret. rewrite Nat.add_0_r, map_id.
    split; [reflexivity|]. split; [constructor|reflexivity].
  - cbn [resetAll]. unfold bind, try_catch, ret.
    destruct (pages_update_cases (page_id x) (list_to_map reset_properties) s)
      as [(e & ->)|(p & _ & ->)].
    + destruct (IH cleaned (next_request s)) as (done & s' & Hrun & Hsub & Hdb).
      exists done, s'. split; [exact Hrun|].
      split; [apply sublist_cons, Hsub|exact Hdb].
    + set (step := fun y => if has_id (page_id x) y then reset (now s) y else y).
      destruct (IH (S cleaned) (with_db (next_request s) (List.map step (db s))))
        as (done & s' & Hrun & Hsub & Hdb).
      exists (x :: done), s'. split.
      { etransitivity; [exact Hrun|]. f_equal. f_equal. simpl. lia. }
      split; [apply sublist_skip, Hsub|].
      rewrite Hdb. cbn [db with_db now next_request]. rewrite map_map.
      apply map_ext. intros q. unfold step. cbn [listed existsb].
      destruct (has_id (page_id x) q) eqn:Hx; cbn [orb].
      * assert (Hsame : listed done (reset (now s) q) = listed done q) by reflexivity.
        rewrite Hsame. destruct (listed done q); [apply reset_idem|reflexivity].
      * reflexivity.
Qed.

(** Whatever the store does, [cleanupOldErrors] returns a number, never
    throws, and leaves every page either as it was or, if it was stale,
    reset: a page that is not stale is never touched. *)
Lemma cleanupOldErrors_touches_stale_only (days : option Z) (s : state) :
  NoDup (List.map page_id (db s)) ->
  let cutoff := (now s - default 7%Z days * msPerDay)%Z in
  exists (n : nat) (s' : state),
    cleanupOldErrors days s = (Ok n, s')
    /\ (n <= List.length (List.filter (is_stale cutoff) (db s)))%nat
    /\ Forall2 (fun q q' => q' = q \/ (is_stale cutoff q = true /\ q' = reset (now s) q))
               (db s) (db s').
Proof.
  intros Hnd cutoff.
  set (stale := List.filter (is_stale cutoff) (db s)).
  assert (Hsame : forall l : list page,
             Forall2 (fun q q' => q' = q \/ (is_stale cutoff q = true
                                             /\ q' = reset (now s) q)) l l).
  { induction l; constructor; auto. }
  assert (Hquery : (exists e, databases_query (Some (stale_filter cutoff)) false None s
                              = (Throw e, next_request s))
                   \/ databases_query (Some (stale_filter cutoff)) false None s
                      = (Ok stale, next_request s))
    by apply (databases_query_cases (Some (stale_filter cutoff)) false None s).
  unfold cleanupOldErrors, try_catch, bind, clock. fold cutoff.
  destruct Hquery as [[e He]|He]; rewrite He.
  - exists 0%nat, (next_request s). split; [reflexivity|]. split; [lia|apply Hsame].
  - destruct (resetAll_cases stale 0 (next_request s)) as (done & s' & Hrun & Hsub & Hdb).
    rewrite Hrun. exists (List.length done), s'. split; [reflexivity|].
    split; [apply sublist_length, Hsub|].
    rewrite Hdb. cbn [db now next_request].
    assert (Hall : forall q, q ∈ db s ->
              (if listed done q then reset (now s) q else q) = q
              \/ (is_stale cutoff q = true
                  /\ (if listed done q then reset (now s) q else q) = reset (now s) q)).
    { intros q Hq. destruct (listed done q) eqn:Hlisted; [|auto]. right.
      split; [|reflexivity].
      apply existsb_exists in Hlisted as (x & Hx & Hid).
      apply list_elem_of_In in Hx. apply (fun H => elem_of_sublist _ _ _ H Hsub) in Hx.
      apply list_elem_of_In, filter_In in Hx as [Hx Hstale].
      apply String.eqb_eq in Hid.
      assert (q = x)
        by (apply (unique_id (db s)); auto; apply list_elem_of_In; assumption).
      subst x. exact Hstale. }
    assert (Hpointwise : forall l : list page, (forall q, q ∈ l -> q ∈ db s) ->
              Forall2 (fun q q' => q' = q \/ (is_stale cutoff q = true
                                              /\ q' = reset (now s) q))
                      l (List.map (fun q => if listed done q then reset (now s) q else q) l)).
    { induction l as [|q l IH]; intros Hin; simpl; constructor.
      - apply Hall, Hin. left.
      - apply IH. intros q' Hq'. apply Hin. right. exact Hq'. }
    apply Hpointwise. auto.
Qed.

(** *** utils/update-notion.js writes the status and the date only *)

Lemma agree_outside_refl (keys : list string) (pages : list page) :
  Forall2 (agree_outside keys) pages pages.
Proof.
  induction pages; constructor; [split; reflexivity|assumption].
Qed.

Lemma agree_outside_trans (keys : list string) (l1 l2 l3 : list page) :
  Forall2 (agree_outside keys) l1 l2 ->
  Forall2 (agree_outside keys) l2 l3 ->
  Forall2 (agree_outside keys) l1 l3.
Proof.
  intros H12. revert l3. induction H12 as [|q1 q2 l1 l2 [Hid Hk] _ IH]; intros l3 H23.
  - inversion H23. constructor.
  - inversion H23 as [|? q3 ? l3' [Hid' Hk'] Hrest]; subst. constructor.
    + split; [congruence|]. intros k Hout. rewrite Hk', Hk; auto.
    + apply IH, Hrest.
Qed.

Local Ltac keys_listed :=
  let k := fresh "k" in
  intros k; rewrite !elem_of_cons, !elem_of_nil; tauto.

Lemma assoc_not_listed (k : string) (l : list (string * property)) :
  k ∉ List.map fst l -> assoc k l = None.
Proof.
  induction l as [|[k' v] rest IH]; intros Hout; [reflexivity|].
  cbn [assoc]. destruct (String.eqb_spec k' k) as [->|_].
  - exfalso. apply Hout. left.
  - apply IH. intros Hin. apply Hout. right. exact Hin.
Qed.

Lemma pages_update_frame (pageId : string) (l : list (string * property))
    (keys : list string) (s : state) :
  (forall k, k ∈ List.map fst l -> k ∈ keys) ->
  Forall2 (agree_outside keys) (db s) (db (pages_update pageId (list_to_map l) s).2).
Proof.
  intros Hkeys.
  destruct (pages_update_cases pageId (list_to_map l) s)
    as [(e & ->)|(p & _ & ->)].
  { cbn [snd]. apply agree_outside_refl. }
  cbn [snd db with_db].
  induction (db s) as [|q rest IH]; simpl; constructor; [|exact IH].
  destruct (has_id pageId q); [|split; reflexivity].
  split; [reflexivity|]. intros k Hout.
  rewrite patched_lookup, assoc_not_listed; [reflexivity|].
  intros Hin. apply Hout, Hkeys, Hin.
Qed.

(** Whatever the store does, [markAsError] of utils/update-notion.js
    changes no property of any page other than [Upload Status] and
    [Upload Date]: the message it is given is not stored and the attempts
    counter is not touched. *)
Lemma util_markAsError_frame (pageId errorMessage : string) (s : state) :
  Forall2 (agree_outside [ "Upload Status"; "Upload Date" ])
          (db s) (db (UpdateNotionUtil.markAsError pageId errorMessage s).2).
Proof.
  unfold UpdateNotionUtil.markAsError, bind.
  assert (Hfirst : Forall2 (agree_outside [ "Upload Status"; "Upload Date" ]) (db s)
                     (db (UpdateNotionUtil.updateVideoStatus pageId "Error" None s).2)).
  { unfold UpdateNotionUtil.updateVideoStatus, bind, clock.
    apply pages_update_frame. cbn [List.map fst]. keys_listed. }
  destruct (UpdateNotionUtil.updateVideoStatus pageId "Error" None s) as [[p|e] s1];
    cbn [snd] in *; [|exact Hfirst].
  eapply agree_outside_trans; [exact Hfirst|].
  unfold UpdateNotionUtil.addErrorLog, try_catch, bind, clock, ret.
  assert (Hsecond : Forall2 (agree_outside [ "Upload Status"; "Upload Date" ]) (db s1)
            (db (pages_update pageId
                   (list_to_map [ ("Upload Status", Select "Error");
                                  ("Upload Date", Date (now s1)) ]) s1).2)).
  { apply pages_update_frame. cbn [List.map fst]. keys_listed. }
  destruct (pages_update pageId _ s1) as [[p'|e'] s2]; exact Hsecond.
Qed.

(** In the same way [markAsUploaded] of utils/update-notion.js writes
    [Upload Status], [YouTube URL] and [Upload Date] only. *)
Lemma util_markAsUploaded_frame (pageId : string) (r : upload_result) (s : state) :
  Forall2 (agree_outside [ "Upload Status"; "YouTube URL"; "Upload Date" ])
          (db s) (db (UpdateNotionUtil.markAsUploaded pageId r s).2).
Proof.
  unfold UpdateNotionUtil.markAsUploaded, UpdateNotionUtil.updateVideoStatus, bind, clock.
  apply pages_update_frame. cbn [UpdateNotionUtil.yt_videoUrl].
  destruct (if truthy_string (videoUrl r) then videoUrl r else url r) as [u|];
    [destruct (Js.truthy u)|]; cbn [List.map fst app]; keys_listed.
Qed.

End Transitions.

(** * Properties of the orchestration *)

Section Orchestration.
Import Notion RunPipeline.








End Orchestration.

(** * The statements at concrete inputs *)

Section Instances.
Import Notion Scenario.

(** Two interstitial pages, then ten megabytes from the third candidate. *)
Lemma downloadFromDrive_first_binary_witness :
  let r := DriveDownloader.downloadFromDrive tempDir third_delivers driveUrl ∅ in
  DriveDownloader.outcome r
  = Ok {| DriveDownloader.filePath := "/app/temp/video_1AbC_dEf-0123456789xyzXYZ.mp4";
          DriveDownloader.fileName := "video_1AbC_dEf-0123456789xyzXYZ.mp4";
          DriveDownloader.fileSize := 10485760;
          DriveDownloader.mimeType := "video/mp4" |}
  /\ DriveDownloader.requested r = [ url1; url2; url3 ]
  /\ Forall (fun v => v ∉ DriveDownloader.requested r) [ url4 ]
  /\ DriveDownloader.disk r !! "/app/temp/video_1AbC_dEf-0123456789xyzXYZ.mp4"
     = Some 10485760%N.
Proof.
  apply (downloadFromDrive_first_binary tempDir third_delivers driveUrl fileId ∅
           [ url1; url2 ] url3 [ url4 ] 10485760%N).
  - reflexivity.
  - reflexivity.
  - repeat constructor.
  - reflexivity.
  - discriminate.
Defined.

Lemma downloadFromDrive_exhausted_witness :
  let r := DriveDownloader.downloadFromDrive tempDir all_empty driveUrl ∅ in
  DriveDownloader.outcome r = Throw "❌ Arquivo baixado está vazio"
  /\ is_ok (DriveDownloader.outcome r) = false
  /\ DriveDownloader.requested r = [ url1; url2; url3; url4 ]
  /\ DriveDownloader.disk r !! "/app/temp/video_1AbC_dEf-0123456789xyzXYZ.mp4" = None.
Proof.
  apply (downloadFromDrive_exhausted tempDir all_empty driveUrl fileId ∅).
  - reflexivity.
  - repeat constructor.
Defined.

(** C3 fails as stated.  The first candidate delivers an empty body and
    the three others answer with markup, so every candidate is of the two
    kinds the claim names.  The run throws the fixed "all URLs failed"
    message: the last candidate raised no error, and the one error that was
    raised, by the first candidate, is not what the run throws. *)
Lemma exhausted_run_drops_candidate_error :
  let urls := DriveDownloader.downloadUrls fileId in
  let r := DriveDownloader.downloadFromDrive tempDir none_delivers driveUrl ∅ in
  Forall (fun v => DriveDownloader.is_markup (none_delivers v)
                   || DriveDownloader.streams (none_delivers v) 0 = true) urls
  /\ DriveDownloader.outcome r = Throw "❌ Todas as URLs de download falharam"
  /\ List.map (fun v => DriveDownloader.candidate_error (none_delivers v)) urls
     = [ Some "❌ Arquivo baixado está vazio"; None; None; None ]
  /\ ~ DriveDownloader.throws_last_candidate_error none_delivers urls r.
Proof.
  split; [repeat constructor|]. split; [reflexivity|]. split; [reflexivity|].
  intros (u & e & Hlast & Herr & _).
  vm_compute in Hlast. injection Hlast as <-.
  vm_compute in Herr. discriminate Herr.
Qed.



(** The spec's scenario: the file [abc123], "Sermon 1.mp4", gives one
    pending record titled "Sermon 1" whose link contains the identifier. *)
Example sermon1_registered :
  List.map (fun p => (first_title "Video Title" p, url_of "Drive Link" p,
                      select_of "Upload Status" p))
    (db (SyncGdrive.syncVideos (Ok [ sermon1 ]) SyncGdrive.default_options
           empty_service).2)
  = [ (Some "Sermon 1",
       Some "https://drive.google.com/file/d/abc123/view?usp=sharing",
       Some "Pending") ].
Proof. vm_compute. reflexivity. Qed.

(** A second pass after a complete first one. *)
Lemma second_pass_adds_nothing_witness :
  let first := SyncGdrive.syncVideos (Ok [ sermon1 ]) SyncGdrive.default_options
                 empty_service in
  exists (r2 : SyncGdrive.summary) (s2 : state),
    SyncGdrive.syncVideos (Ok [ sermon1 ]) SyncGdrive.default_options first.2 = (Ok r2, s2)
    /\ SyncGdrive.added r2 = 0%nat /\ SyncGdrive.errors r2 = 0%nat
    /\ db s2 = db first.2.
Proof.
  apply (second_pass_adds_nothing [ sermon1 ]
           SyncGdrive.default_options SyncGdrive.default_options empty_service
           (SyncGdrive.syncVideos (Ok [ sermon1 ]) SyncGdrive.default_options
              empty_service).2
           {| SyncGdrive.added := 1; SyncGdrive.skipped := 0;
              SyncGdrive.errors := 0; SyncGdrive.total := Some 1%nat |}).
  - reflexivity.
  - reflexivity.
  - reflexivity.
  - vm_compute. reflexivity.
  - reflexivity.
  - vm_compute. lia.
  - vm_compute. reflexivity.
Defined.

(** C7 fails as stated.  With a cap of one record per pass and two new
    files, the first pass registers one file and the second pass, on the
    same inventory and the records the first pass left, registers the
    other: its count of added records is 1. *)
Lemma capped_second_pass_adds_a_record :
  let first := SyncGdrive.syncVideos (Ok two_files) one_per_pass empty_service in
  let second := SyncGdrive.syncVideos (Ok two_files) one_per_pass first.2 in
  first.1 = Ok {| SyncGdrive.added := 1; SyncGdrive.skipped := 0;
                  SyncGdrive.errors := 0; SyncGdrive.total := Some 2%nat |}
  /\ second.1 = Ok {| SyncGdrive.added := 1; SyncGdrive.skipped := 1;
                      SyncGdrive.errors := 0; SyncGdrive.total := Some 2%nat |}
  /\ List.length (db first.2) = 1%nat
  /\ List.length (db second.2) = 2%nat.
Proof. vm_compute. repeat split. Qed.

(** Why the second pass is only quiet after a complete first pass: when
    the one page creation of the first pass fails, the second pass
    registers the file. *)
Example failed_creation_is_registered_later :
  let first := SyncGdrive.syncVideos (Ok [ sermon1 ]) SyncGdrive.default_options
                 failing_second_request in
  let second := SyncGdrive.syncVideos (Ok [ sermon1 ]) SyncGdrive.default_options
                  first.2 in
  first.1 = Ok {| SyncGdrive.added := 0; SyncGdrive.skipped := 0;
                  SyncGdrive.errors := 1; SyncGdrive.total := Some 1%nat |}
  /\ second.1 = Ok {| SyncGdrive.added := 1; SyncGdrive.skipped := 0;
                      SyncGdrive.errors := 0; SyncGdrive.total := Some 1%nat |}.
Proof. vm_compute. split; reflexivity. Qed.


Example crowded_store_registers_again :
  let run := SyncGdrive.syncVideos (Ok [ sermon1 ]) SyncGdrive.default_options
               crowded_service in
  run.1 = Ok {| SyncGdrive.added := 1; SyncGdrive.skipped := 0;
                SyncGdrive.errors := 0; SyncGdrive.total := Some 1%nat |}
  /\ List.length (db run.2) = 102%nat
  /\ first_title "Video Title" <$> last (db crowded_service) = Some (Some "Sermon 1")
  /\ first_title "Video Title" <$> last (db run.2) = Some (Some "Sermon 1").
Proof. vm_compute. repeat split. Qed.

(** Why the second pass is only quiet on at most a hundred records: in a
    database that lists a new page after a hundred others, the page the
    first pass wrote is not among those the second pass looks at, and the
    file is registered once more. *)
Example crowded_second_pass_registers_again :
  let first := SyncGdrive.syncVideos (Ok [ sermon1 ]) SyncGdrive.default_options
                 (service_of hundred_pages) in
  let second := SyncGdrive.syncVideos (Ok [ sermon1 ]) SyncGdrive.default_options
                  first.2 in
  first.1 = Ok {| SyncGdrive.added := 1; SyncGdrive.skipped := 0;
                  SyncGdrive.errors := 0; SyncGdrive.total := Some 1%nat |}
  /\ second.1 = Ok {| SyncGdrive.added := 1; SyncGdrive.skipped := 0;
                      SyncGdrive.errors := 0; SyncGdrive.total := Some 1%nat |}
  /\ List.length (db second.2) = 102%nat.
Proof. vm_compute. repeat split. Qed.

(** A page update that the store fails is skipped and not counted. *)
Example failed_reset_is_not_counted :
  let s := {| db := [ stale_page ]; comments := []; faults := [ false; true ];
              now := instant; next_id := 1 |} in
  (UpdateNotion.cleanupOldErrors None s).1 = Ok 0%nat
  /\ db (UpdateNotion.cleanupOldErrors None s).2 = [ stale_page ].
Proof. vm_compute. split; reflexivity. Qed.



(** A successful upload of a record that had failed before. *)
Lemma updateNotionPage_marks_uploaded_witness :
  exists (summary : UpdateNotion.update_summary) (s' : state) (p' : page),
    UpdateNotion.updateNotionPage "page-0" published_outcome (service_of [ failed_page ])
    = (Ok summary, s')
    /\ find_page "page-0" (db s') = Some p'
    /\ select_of "Upload Status" p' = Some "Uploaded"
    /\ url_of "YouTube URL" p' = Some "https://www.youtube.com/watch?v=dQw4w9WgXcQ"
    /\ segments_of "Video ID" p' = Some [ "dQw4w9WgXcQ" ]
    /\ properties p' !! "Error Message" = properties failed_page !! "Error Message"
    /\ properties p' !! "Error Date" = properties failed_page !! "Error Date".
Proof.
  apply (updateNotionPage_marks_uploaded "page-0" published_outcome
           (service_of [ failed_page ]) failed_page
           "https://www.youtube.com/watch?v=dQw4w9WgXcQ" "dQw4w9WgXcQ");
    reflexivity.
Defined.

(** C5 fails as stated.  After a successful upload [updateNotionPage]
    leaves the error message and the error date of the earlier failure on
    the record, now [Uploaded]; and [markAsUploaded] of
    utils/update-notion.js, the one the upload script calls, leaves the
    message too and stores no video identifier. *)
Lemma uploaded_transition_keeps_error_fields :
  List.map (fun p => (select_of "Upload Status" p,
                      segments_of "Error Message" p,
                      date_of "Error Date" p))
    (db (UpdateNotion.updateNotionPage "page-0" published_outcome
           (service_of [ failed_page ])).2)
  = [ (Some "Uploaded", Some [ "quota exceeded" ], Some 1767100000000%Z) ]
  /\ List.map (fun p => (select_of "Upload Status" p,
                         segments_of "Error Message" p,
                         properties p !! "Video ID"))
       (db (UpdateNotionUtil.markAsUploaded "page-0" published_outcome
              (service_of [ failed_page ])).2)
     = [ (Some "Uploaded", Some [ "quota exceeded" ], None) ].
Proof. vm_compute. repeat split. Qed.


Example stale_record_after_reset :
  let p := UpdateNotion.reset instant stale_page in
  (select_of "Upload Status" p, segments_of "Error Message" p,
   number_of "Upload Attempts" p, date_of "Error Date" p)
  = (Some "Pending", Some [], Some 0%Q, Some (instant - 10 * 86400000)%Z).
Proof. vm_compute. reflexivity. Qed.



End Instances.

(** * Further properties: links and names *)

Section Links.
Import DriveDownloader.

Lemma append_cons (c : ascii) (a b : string) : String c a +:+ b = String c (a +:+ b).
Proof. reflexivity. Qed.

Lemma append_nil (b : string) : EmptyString +:+ b = b.
Proof. reflexivity. Qed.

Lemma capture_after_here (lit s tail : string) :
  Js.strip_prefix lit s = Some tail ->
  Js.truthy (Js.take_while Js.is_id_char tail) = true ->
  Js.capture_after lit s = Some (Js.take_while Js.is_id_char tail).
Proof. destruct s; cbn [Js.capture_after]; intros -> ->; reflexivity. Qed.

Lemma capture_after_skip (lit : string) (c : ascii) (rest : string) :
  Js.strip_prefix lit (String c rest) = None ->
  Js.capture_after lit (String c rest) = Js.capture_after lit rest.
Proof. cbn [Js.capture_after]. intros ->. reflexivity. Qed.

Lemma take_while_app (p : ascii -> bool) (a b : string) :
  Js.forall_chars p a = true ->
  Js.take_while p b = EmptyString ->
  Js.take_while p (a +:+ b) = a.
Proof.
  induction a as [|c a IH]; simpl; intros Ha Hb; [exact Hb|].
  apply andb_prop in Ha as [Hc Ha]. rewrite Hc, IH by assumption. reflexivity.
Qed.

(** A literal that holds a character outside the identifier class is not
    found in a string made of identifier characters. *)
Lemma strip_prefix_chars (p : ascii -> bool) (lit : string) :
  forall s tail, Js.strip_prefix lit s = Some tail ->
                 Js.forall_chars p s = true -> Js.forall_chars p lit = true.
Proof.
  induction lit as [|a lit IH]; intros s tail; [reflexivity|].
  destruct s as [|b s]; simpl; [discriminate|].
  unfold Js.eqb_ascii. destruct (Ascii.eqb_spec a b) as [->|_]; [|discriminate].
  intros Htail Hs. apply andb_prop in Hs as [Hb Hs]. rewrite Hb. simpl.
  exact (IH _ _ Htail Hs).
Qed.

Lemma capture_after_none (lit s : string) :
  Js.forall_chars Js.is_id_char lit = false ->
  Js.forall_chars Js.is_id_char s = true ->
  Js.capture_after lit s = None.
Proof.
  intros Hlit. induction s as [|c s IH]; intros Hs.
  - cbn [Js.capture_after].
    destruct (Js.strip_prefix lit EmptyString) as [tail|] eqn:Hp; [|reflexivity].
    rewrite (strip_prefix_chars _ _ _ _ Hp Hs) in Hlit. discriminate.
  - cbn [Js.capture_after].
    destruct (Js.strip_prefix lit (String c s)) as [tail|] eqn:Hp.
    + rewrite (strip_prefix_chars _ _ _ _ Hp Hs) in Hlit. discriminate.
    + apply IH. simpl in Hs. apply andb_prop in Hs. apply Hs.
Qed.

(** X1.  The link [getVideosFromDrive] builds for a file is read back by
    [extractFileIdFromUrl]: for every identifier made of letters, digits,
    hyphens and underscores the extraction returns the identifier itself,
    and the pre-step of the download accepts it as soon as it has twenty
    characters. *)
Theorem shareable_link_yields_its_id (fileId : string) :
  Js.truthy fileId = true ->
  Js.forall_chars Js.is_id_char fileId = true ->
  extractFileIdFromUrl (SyncGdrive.shareableLink fileId) = Ok fileId
  /\ ((20 <= String.length fileId)%nat ->
      DownloadVideo.extractAndValidateDriveId (SyncGdrive.shareableLink fileId)
      = Ok fileId).
Proof.
  intros Hne Hchars.
  assert (Hrun : Js.take_while Js.is_id_char (fileId +:+ "/view?usp=sharing") = fileId)
    by (apply take_while_app; [exact Hchars|reflexivity]).
  assert (Hid : extractFileIdFromUrl (SyncGdrive.shareableLink fileId) = Ok fileId).
  { unfold extractFileIdFromUrl, patterns, first_match, SyncGdrive.shareableLink.
    rewrite !append_cons, append_nil.
    repeat (rewrite capture_after_skip by reflexivity).
    rewrite (capture_after_here _ _ (fileId +:+ "/view?usp=sharing"));
      rewrite ?Hrun; [reflexivity|reflexivity|exact Hne]. }
  split; [exact Hid|].
  intros Hlong. unfold DownloadVideo.extractAndValidateDriveId, DownloadVideo.validIdPattern.
  rewrite Hid, Hne, Hchars. simpl.
  destruct (String.length fileId <? 20)%nat eqn:Hlt; [|reflexivity].
  apply Nat.ltb_lt in Hlt. lia.
Qed.

Lemma shareable_link_yields_its_id_witness :
  extractFileIdFromUrl (SyncGdrive.shareableLink "1AbC_dEf-0123456789xyzXYZ")
  = Ok "1AbC_dEf-0123456789xyzXYZ"
  /\ ((20 <= String.length "1AbC_dEf-0123456789xyzXYZ")%nat ->
      DownloadVideo.extractAndValidateDriveId
        (SyncGdrive.shareableLink "1AbC_dEf-0123456789xyzXYZ")
      = Ok "1AbC_dEf-0123456789xyzXYZ").
Proof.
  apply (shareable_link_yields_its_id "1AbC_dEf-0123456789xyzXYZ"); reflexivity.
Defined.

(** X2.  A bare identifier is returned as it is: none of the four URL
    patterns matches a string made of identifier characters, so the last
    pattern decides.  The empty string matches no pattern. *)
Theorem bare_identifier_is_extracted (fileId : string) :
  Js.forall_chars Js.is_id_char fileId = true ->
  extractFileIdFromUrl fileId
  = if Js.truthy fileId then Ok fileId
    else Throw "❌ Não foi possível extrair ID do arquivo da URL: ".
Proof.
  intros Hchars.
  unfold extractFileIdFromUrl, patterns, first_match.
  rewrite !capture_after_none by (exact Hchars || reflexivity).
  unfold Js.capture_whole. rewrite Hchars.
  destruct fileId; reflexivity.
Qed.

Lemma bare_identifier_is_extracted_witness :
  extractFileIdFromUrl "1AbC_dEf-0123456789xyzXYZ"
  = if Js.truthy "1AbC_dEf-0123456789xyzXYZ" then Ok "1AbC_dEf-0123456789xyzXYZ"
    else Throw "❌ Não foi possível extrair ID do arquivo da URL: ".
Proof.
  apply (bare_identifier_is_extracted "1AbC_dEf-0123456789xyzXYZ"). reflexivity.
Defined.

Lemma forall_chars_app (p : ascii -> bool) (a b : string) :
  Js.forall_chars p (a +:+ b) = Js.forall_chars p a && Js.forall_chars p b.
Proof.
  induction a as [|c a IH]; simpl; [reflexivity|].
  rewrite IH, andb_assoc. reflexivity.
Qed.

(** X3.  The name recorded for a file is the file name without its last
    extension: a dot followed by one or more characters other than a dot
    and a slash is cut off with what follows it, whatever stands before,
    and a name without a dot is kept as it is. *)
Theorem strip_extension_removes_last_extension (base ext : string) :
  Js.truthy ext = true ->
  Js.forall_chars Path.plain_char ext = true ->
  Js.strip_extension (base +:+ "." +:+ ext) = base
  /\ Js.strip_extension ext = ext.
Proof.
  intros Hne Hext. split.
  - change (base +:+ "." +:+ ext) with (base +:+ String "." ext).
    induction base as [|c base IH].
    + rewrite append_nil. cbn [Js.strip_extension]. fold Path.plain_char.
      rewrite Hne, Hext. reflexivity.
    + rewrite append_cons. cbn [Js.strip_extension]. fold Path.plain_char.
      rewrite forall_chars_app. cbn [Js.forall_chars].
      replace (Path.plain_char ".") with false by reflexivity.
      rewrite andb_false_r, !andb_false_r, IH. reflexivity.
  - clear Hne. induction ext as [|c ext IH]; [reflexivity|].
    simpl in Hext. apply andb_prop in Hext as [Hc Hext].
    cbn [Js.strip_extension].
    assert (Hdot : Js.eqb_ascii c "." = false).
    { unfold Path.plain_char in Hc. apply negb_true_iff, orb_false_elim in Hc. apply Hc. }
    rewrite Hdot, IH by exact Hext. reflexivity.
Qed.

Lemma strip_extension_removes_last_extension_witness :
  Js.strip_extension ("Culto 12.05 - parte 2" +:+ "." +:+ "mp4") = "Culto 12.05 - parte 2"
  /\ Js.strip_extension "mp4" = "mp4".
Proof.
  apply (strip_extension_removes_last_extension "Culto 12.05 - parte 2" "mp4");
    reflexivity.
Defined.

End Links.

(** * Further properties: the download loop, whatever the network does *)

Section DownloadInvariants.
Import DriveDownloader.

Variable tempDir : string.
Variable net : string -> attempt.

(** The three ways one candidate ends, with what each leaves on disk. *)
Lemma attemptUrl_cases (path url : string) (files : gmap string N) :
  match attemptUrl net path url files with
  | (Markup, files') => is_markup (net url) = true /\ files' = files
  | (Failure e, files') =>
      is_markup (net url) = false /\ candidate_error (net url) = Some e
      /\ forall p, p <> path -> files' !! p = files !! p
  | (Saved n, files') =>
      streams (net url) n = true /\ n <> 0%N /\ files' = <[path := n]> files
  end.
Proof.
  unfold attemptUrl, is_markup, candidate_error, streams.
  destruct (net url) as [e|r]; [auto|].
  destruct (Js.includes "text/html" (default EmptyString (content_type r)));
    [auto|].
  destruct (body r) as [[n|]|e [n|]]; simpl.
  - destruct (n =? 0)%N eqn:Hn.
    + split; [reflexivity|]. split; [reflexivity|].
      intros p Hp. apply lookup_delete_ne. congruence.
    + split; [apply N.eqb_refl|]. split; [|reflexivity].
      apply N.eqb_neq. exact Hn.
  - split; [reflexivity|]. split; [reflexivity|].
    intros p Hp. apply lookup_delete_ne. congruence.
  - split; [reflexivity|]. split; [reflexivity|].
    intros p Hp. apply lookup_insert_ne. congruence.
  - auto.
Qed.

Lemma failing_candidate (url : string) :
  is_markup (net url) = true \/ (exists e, candidate_error (net url) = Some e) ->
  fails (net url) = true.
Proof.
  unfold fails. intros [->|[e ->]]; [reflexivity|apply orb_true_r].
Qed.

(** What every run of the loop keeps: only the target file is touched;
    it is there, with the size reported, exactly when the run returns;
    the candidates are requested in order, all of them unless one
    delivers. *)
Lemma tryUrls_invariant (path name : string) (urls : list string) :
  forall (files : gmap string N) (log : list string),
    files !! path = None ->
    let r := tryUrls net path name urls files log in
    (forall p, p <> path -> disk r !! p = files !! p)
    /\ match outcome r with
       | Ok pl =>
           pl = {| filePath := path; fileName := name;
                   fileSize := fileSize pl; mimeType := "video/mp4" |}
           /\ disk r !! path = Some (fileSize pl) /\ fileSize pl <> 0%N
       | Throw _ => disk r !! path = None
       end
    /\ exists tried : list string,
         requested r = log ++ tried
         /\ tried `prefix_of` urls
         /\ match outcome r with
            | Ok pl =>
                exists pre u, tried = pre ++ [u]
                              /\ streams (net u) (fileSize pl) = true
                              /\ Forall (fun v => fails (net v) = true) pre
            | Throw _ => tried = urls /\ Forall (fun v => fails (net v) = true) urls
            end.
Proof.
  induction urls as [|u rest IH]; intros files log Hnone; cbn [tryUrls].
  - cbn zeta. cbn [outcome disk requested].
    split; [reflexivity|]. split; [exact Hnone|].
    exists []. rewrite app_nil_r. split; [reflexivity|]. split; [reflexivity|].
    split; [reflexivity|constructor].
  - pose proof (attemptUrl_cases path u files) as Hcase.
    destruct (attemptUrl net path u files) as [[|e|n] files'].
    + destruct Hcase as [Hm ->].
      destruct (IH files (log ++ [u]) Hnone) as (Hframe & Hfile & tried & Hreq & Hpre & Hend).
      cbn zeta. split; [exact Hframe|]. split; [exact Hfile|].
      exists (u :: tried). split; [rewrite Hreq, <- app_assoc; reflexivity|].
      split; [apply prefix_cons, Hpre|].
      destruct (outcome (tryUrls net path name rest files (log ++ [u]))) as [pl|err].
      * destruct Hend as (pre & w & -> & Hw & Hfails).
        exists (u :: pre), w. split; [reflexivity|]. split; [exact Hw|].
        constructor; [apply failing_candidate; auto|exact Hfails].
      * destruct Hend as [-> Hfails]. split; [reflexivity|].
        constructor; [apply failing_candidate; auto|exact Hfails].
    + destruct Hcase as (Hm & He & Hother).
      assert (Hclean : delete path files' !! path = None) by apply lookup_delete_eq.
      assert (Hsame : forall p, p <> path -> delete path files' !! p = files !! p).
      { intros p Hp. rewrite lookup_delete_ne by congruence. apply Hother, Hp. }
      destruct rest as [|w rest'].
      * cbn zeta. cbn [outcome disk requested].
        split; [exact Hsame|]. split; [exact Hclean|].
        exists [u]. split; [reflexivity|]. split; [reflexivity|].
        split; [reflexivity|].
        constructor; [apply failing_candidate; eauto|constructor].
      * destruct (IH (delete path files') (log ++ [u]) Hclean)
          as (Hframe & Hfile & tried & Hreq & Hpre & Hend).
        cbn zeta. split.
        { intros p Hp. rewrite Hframe by exact Hp. apply Hsame, Hp. }
        split; [exact Hfile|].
        exists (u :: tried). split; [rewrite Hreq, <- app_assoc; reflexivity|].
        split; [apply prefix_cons, Hpre|].
        destruct (outcome (tryUrls net path name (w :: rest') (delete path files')
                             (log ++ [u]))) as [pl|err].
        -- destruct Hend as (pre & x & -> & Hx & Hfails).
           exists (u :: pre), x. split; [reflexivity|]. split; [exact Hx|].
           constructor; [apply failing_candidate; eauto|exact Hfails].
        -- destruct Hend as [-> Hfails]. split; [reflexivity|].
           constructor; [apply failing_candidate; eauto|exact Hfails].
    + destruct Hcase as (Hs & Hn & ->).
      cbn zeta. cbn [outcome disk requested fileSize].
      split; [intros p Hp; apply lookup_insert_ne; congruence|].
      split; [split; [reflexivity|split; [apply lookup_insert_eq|exact Hn]]|].
      exists [u]. split; [reflexivity|].
      split; [apply prefix_cons, prefix_nil|].
      exists [], u. split; [reflexivity|]. split; [exact Hs|constructor].
Qed.

(** X4.  Whatever the network answers, a run of [downloadFromDrive]
    touches no file but its target [tempDir/video_ID.mp4]; when it
    returns, the target is on disk with the size it reports, which is not
    zero, even if an older file stood there; when it throws, no target
    file is left.  A link without identifier throws before anything is
    requested or removed. *)
Theorem downloadFromDrive_touches_target_only (driveUrl : string) (files : gmap string N) :
  let r := downloadFromDrive tempDir net driveUrl files in
  match extractFileIdFromUrl driveUrl with
  | Throw e => outcome r = Throw e /\ disk r = files /\ requested r = []
  | Ok fileId =>
      let path := tempDir +:+ "/" +:+ "video_" +:+ fileId +:+ ".mp4" in
      (forall p, p <> path -> disk r !! p = files !! p)
      /\ match outcome r with
         | Ok pl =>
             filePath pl = path /\ disk r !! path = Some (fileSize pl)
             /\ fileSize pl <> 0%N
         | Throw _ => disk r !! path = None
         end
  end.
Proof.
  unfold downloadFromDrive.
  destruct (extractFileIdFromUrl driveUrl) as [fileId|e]; [|auto].
  cbn zeta.
  set (name := "video_" +:+ fileId +:+ ".mp4").
  set (path := tempDir +:+ "/" +:+ name).
  destruct (tryUrls_invariant path name (downloadUrls fileId) (delete path files) [])
    as (Hframe & Hfile & _); [apply lookup_delete_eq|].
  split.
  - intros p Hp. rewrite Hframe by exact Hp. apply lookup_delete_ne. congruence.
  - destruct (outcome (tryUrls net path name (downloadUrls fileId) (delete path files) []))
      as [pl|err]; [|exact Hfile].
    destruct Hfile as (Hpl & Hdisk & Hn). rewrite Hpl at 1. auto.
Qed.

(** X5.  Once the identifier is extracted, the candidates are requested
    in the order of the list and none twice; the run gives up only after
    all four were requested and none delivered, and it returns with the
    file of the one candidate that streamed a body, every candidate before
    it having answered with markup or raised an error. *)
Theorem downloadFromDrive_requests_in_order
    (driveUrl fileId : string) (files : gmap string N) :
  extractFileIdFromUrl driveUrl = Ok fileId ->
  let r := downloadFromDrive tempDir net driveUrl files in
  requested r `prefix_of` downloadUrls fileId
  /\ NoDup (requested r)
  /\ match outcome r with
     | Ok pl =>
         exists pre u, requested r = pre ++ [u]
                       /\ streams (net u) (fileSize pl) = true
                       /\ Forall (fun v => fails (net v) = true) pre
     | Throw _ =>
         requested r = downloadUrls fileId
         /\ Forall (fun v => fails (net v) = true) (downloadUrls fileId)
     end.
Proof.
  intros Hid. unfold downloadFromDrive. rewrite Hid. cbn zeta.
  set (name := "video_" +:+ fileId +:+ ".mp4").
  set (path := tempDir +:+ "/" +:+ name).
  destruct (tryUrls_invariant path name (downloadUrls fileId) (delete path files) [])
    as (_ & _ & tried & Hreq & Hpre & Hend); [apply lookup_delete_eq|].
  rewrite Hreq. cbn [app]. split; [exact Hpre|]. split; [|exact Hend].
  destruct Hpre as [k Hk].
  pose proof (downloadUrls_distinct fileId) as Hnd. rewrite Hk in Hnd.
  apply NoDup_app in Hnd. apply Hnd.
Qed.

End DownloadInvariants.

(** * Further properties: the reconciliation pass *)

Section Passes.
Import Notion SyncGdrive.

(** A preview pass sends nothing to the store. *)
Lemma addAll_dry (videos : list video) :
  forall (a e : nat) (s : state),
    addAll true videos a e s = (Ok ((a + List.length videos)%nat, e), s).
Proof.
  induction videos as [|v rest IH]; intros a e s; cbn [addAll].
  - unfold ret. rewrite Nat.add_0_r. reflexivity.
  - unfold bind, try_catch, ret. rewrite IH. cbn [List.length].
    replace (S a + List.length rest)%nat with (a + S (List.length rest))%nat by lia.
    reflexivity.
Qed.

Lemma apply_limit_nil {A} (lim : option Z) : apply_limit lim (@nil A) = [].
Proof.
  destruct lim as [n|]; [|reflexivity]. unfold apply_limit, slice0.
  destruct (n =? 0)%Z; [reflexivity|]. destruct (0 <=? n)%Z; apply take_nil.
Qed.

(** The shape of every pass over a listing: it throws when the query of
    the existing records fails, and otherwise returns a summary computed
    from the videos to add and the pages that were created. *)
Lemma syncVideos_shape (files : list drive_file) (o : options) (s : state) :
  let videos := List.map processVideo files in
  let newVideos := List.filter (is_new o (lookup_of (take 100 (db s)))) videos in
  let toAdd := apply_limit (limit o) newVideos in
  (exists e, syncVideos (Ok files) o s = (Throw e, next_request s))
  \/ exists (created : list page) (s' : state) (tot : option nat),
       syncVideos (Ok files) o s
       = (Ok {| added := if dryRun o then List.length toAdd else List.length created;
                skipped := List.length videos - List.length newVideos;
                errors := if dryRun o then 0%nat
                          else (List.length toAdd - List.length created)%nat;
                total := tot |}, s')
       /\ db s' = db s ++ created
       /\ (List.length created <= List.length toAdd)%nat
       /\ (tot = None -> newVideos = [])
       /\ (forall n, tot = Some n -> n = List.length files)
       /\ (dryRun o = true -> created = [] /\ (s' = s \/ s' = next_request s))
       /\ (dryRun o = false -> faults s = [] -> Forall2 page_of toAdd created).
Proof.
  intros videos newVideos toAdd.
  assert (Hearly : forall (n : nat) (s' : state),
    newVideos = [] -> n = (List.length videos - List.length newVideos)%nat ->
    s' = s \/ s' = next_request s ->
    exists (created : list page) (s'' : state) (tot : option nat),
      (Ok {| added := 0; skipped := n; errors := 0; total := None |}, s')
      = (Ok {| added := if dryRun o then List.length toAdd else List.length created;
               skipped := List.length videos - List.length newVideos;
               errors := if dryRun o then 0%nat
                         else (List.length toAdd - List.length created)%nat;
               total := tot |}, s'')
      /\ db s'' = db s ++ created
      /\ (List.length created <= List.length toAdd)%nat
      /\ (tot = None -> newVideos = [])
      /\ (forall n, tot = Some n -> n = List.length files)
      /\ (dryRun o = true -> created = [] /\ (s'' = s \/ s'' = next_request s))
      /\ (dryRun o = false -> faults s = [] -> Forall2 page_of toAdd created)).
  { intros n s' Hnew -> Hs'. exists [], s', None.
    assert (HtoAdd : toAdd = []) by (unfold toAdd; rewrite Hnew; apply apply_limit_nil).
    rewrite HtoAdd, app_nil_r. cbn [List.length].
    split; [destruct (dryRun o); reflexivity|].
    split; [destruct Hs' as [->| ->]; reflexivity|].
    split; [lia|]. split; [auto|]. split; [discriminate|].
    split; [auto|]. intros _ _. constructor. }
  unfold syncVideos, bind, getVideosFromDrive. cbn [ret]. fold videos.
  unfold ret at 1.
  destruct (List.length videos =? 0)%nat eqn:Hempty.
  { right. apply Hearly; [|  |auto].
    - unfold newVideos. rewrite (length_zero_nil _ Hempty). reflexivity.
    - unfold newVideos. rewrite (length_zero_nil _ Hempty). reflexivity. }
  destruct (getExistingVideosFromNotion_cases s) as [[e He]|He]; rewrite He.
  { left. exists e. reflexivity. }
  fold newVideos.
  destruct (List.length newVideos =? 0)%nat eqn:Hnew.
  { right. apply Hearly; [apply length_zero_nil, Hnew| |auto].
    rewrite (length_zero_nil _ Hnew). cbn [List.length]. lia. }
  fold toAdd. right.
  destruct (addAll_spec (dryRun o) toAdd 0 0 (next_request s))
    as (done & created & s' & Hrun & Hdb & Hsub & Hpages & Hdry & Hall).
  assert (Hlen : (List.length created <= List.length toAdd)%nat).
  { rewrite <- (Forall2_length _ _ _ Hpages). apply sublist_length, Hsub. }
  exists created, s', (Some (List.length videos)).
  rewrite Hrun. unfold ret. cbn [fst snd].
  split; [destruct (dryRun o); reflexivity|].
  split; [exact Hdb|]. split; [exact Hlen|]. split; [discriminate|].
  split; [intros n [= <-]; apply length_map|].
  split.
  - intros Hd. split; [apply Hdry, Hd|]. right.
    rewrite Hd, addAll_dry in Hrun. congruence.
  - intros Hd Hq. destruct (Hall Hd (next_request_quiet _ Hq)) as [<- _]. exact Hpages.
Qed.

Lemma apply_limit_length {A} (lim : option Z) (l : list A) :
  (List.length (apply_limit lim l) <= List.length l)%nat.
Proof. apply sublist_length, apply_limit_sublist. Qed.


(** X7.  The summary of a pass adds up: added, failed and skipped videos
    are at most the files of the folder, and exactly the files of the
    folder when no limit applies; in a real pass the database grows by one
    page for each video counted as added, and by nothing else. *)
Theorem syncVideos_summary_adds_up
    (files : list drive_file) (o : options) (s s' : state) (r : summary) :
  syncVideos (Ok files) o s = (Ok r, s') ->
  (added r + errors r + skipped r <= List.length files)%nat
  /\ (limit o = None -> (added r + errors r + skipped r)%nat = List.length files)
  /\ (dryRun o = false ->
      exists created, db s' = db s ++ created /\ List.length created = added r)
  /\ (total r = None \/ total r = Some (List.length files)).
Proof.
  intros Hrun.
  destruct (syncVideos_shape files o s)
    as [[e He]|(created & s1 & tot & Hshape & Hdb & Hlen & _ & Htot & _)];
    [congruence|].
  rewrite Hshape in Hrun. injection Hrun as <- <-. cbn [added errors skipped total].
  set (videos := List.map processVideo files) in *.
  set (newVideos := List.filter (is_new o (lookup_of (take 100 (db s)))) videos) in *.
  assert (Hvideos : List.length videos = List.length files) by apply length_map.
  assert (Hnew : (List.length newVideos <= List.length videos)%nat)
    by apply filter_length_le.
  pose proof (apply_limit_length (limit o) newVideos) as Hcap.
  split; [destruct (dryRun o); lia|].
  split.
  - intros Hlim. rewrite Hlim in *. cbn [apply_limit] in *. destruct (dryRun o); lia.
  - split.
    + intros ->. exists created. split; [exact Hdb|reflexivity].
    + destruct tot as [n|]; [right; rewrite (Htot n eq_refl); reflexivity|left; reflexivity].
Qed.

Lemma filter_all {A} (f : A -> bool) (l : list A) :
  (forall x, f x = true) -> List.filter f l = l.
Proof.
  intros Hf. induction l as [|x l IH]; simpl; [reflexivity|]. rewrite Hf, IH. reflexivity.
Qed.

(** X8.  With [--force] nothing is skipped: a served pass without limit
    writes a page for every file of the folder, in the order of the
    listing, also for the files that have a record already. *)
Theorem force_registers_every_file (files : list drive_file) (o : options) (s : state) :
  skipExisting o = false -> dryRun o = false -> limit o = None -> faults s = [] ->
  exists (r : summary) (s' : state) (created : list page),
    syncVideos (Ok files) o s = (Ok r, s')
    /\ added r = List.length files /\ skipped r = 0%nat /\ errors r = 0%nat
    /\ db s' = db s ++ created
    /\ Forall2 page_of (List.map processVideo files) created.
Proof.
  intros Hforce Hdry Hlim Hquiet.
  assert (Hnew : List.filter (is_new o (lookup_of (take 100 (db s))))
                   (List.map processVideo files) = List.map processVideo files).
  { apply filter_all. intros v. unfold is_new. rewrite Hforce. reflexivity. }
  destruct (syncVideos_shape files o s)
    as [[e He]|(created & s' & tot & Hshape & Hdb & _ & _ & _ & _ & Hall)].
  - exfalso. revert He. unfold syncVideos, bind, getVideosFromDrive. cbn [ret].
    unfold ret at 1.
    destruct (List.length (List.map processVideo files) =? 0)%nat; [discriminate|].
    rewrite (getExistingVideosFromNotion_served _ Hquiet).
    destruct (List.length _ =? 0)%nat; [discriminate|].
    destruct (addAll_spec (dryRun o)
                (apply_limit (limit o)
                   (List.filter (is_new o (lookup_of (take 100 (db s))))
                      (List.map processVideo files))) 0 0 (next_request s))
      as (done & created & s' & -> & _). discriminate.
  - specialize (Hall Hdry Hquiet).
    rewrite Hnew, Hlim, Hdry in *. cbn [apply_limit] in *.
    pose proof (Forall2_length _ _ _ Hall) as Hlen. rewrite length_map in Hlen.
    eexists _, s', created. split; [exact Hshape|]. cbn [added skipped errors].
    rewrite length_map.
    split; [lia|]. split; [lia|]. split; [lia|]. split; [exact Hdb|exact Hall].
Qed.

(** X9.  A positive [--limit=N] caps the pass: at most N videos are
    tried, so at most N pages are written. *)
Theorem positive_limit_caps_the_pass
    (files : list drive_file) (o : options) (s s' : state) (r : summary) (n : Z) :
  limit o = Some n -> (0 < n)%Z ->
  syncVideos (Ok files) o s = (Ok r, s') ->
  (added r + errors r <= Z.to_nat n)%nat
  /\ (List.length (db s') <= List.length (db s) + Z.to_nat n)%nat.
Proof.
  intros Hlim Hn Hrun.
  destruct (syncVideos_shape files o s)
    as [[e He]|(created & s1 & tot & Hshape & Hdb & Hlen & _)]; [congruence|].
  rewrite Hshape in Hrun. injection Hrun as <- <-. cbn [added errors].
  rewrite Hlim in *.
  set (newVideos := List.filter _ _) in *.
  assert (Hcap : (List.length (apply_limit (Some n) newVideos) <= Z.to_nat n)%nat).
  { unfold apply_limit, slice0.
    destruct (n =? 0)%Z eqn:Hz; [apply Z.eqb_eq in Hz; lia|].
    destruct (0 <=? n)%Z eqn:Hpos; [|apply Z.leb_gt in Hpos; lia].
    rewrite length_take. lia. }
  split; [destruct (dryRun o); lia|].
  rewrite Hdb, length_app. lia.
Qed.

End Passes.

(** * Further properties: the writes to a record *)

Section Writes.
Import Notion UpdateNotion.

Lemma substring0_length (n : nat) (s : string) :
  String.length (Js.substring0 n s) = Nat.min n (String.length s).
Proof.
  revert s. induction n as [|n IH]; intros [|c s]; cbn [Js.substring0 String.length];
    [reflexivity..|].
  rewrite IH. reflexivity.
Qed.


Local Arguments Js.substring0 : simpl never.


Lemma pages_retrieve_cases (pageId : string) (s : state) :
  (exists e, pages_retrieve pageId s = (Throw e, next_request s))
  \/ (exists p, find_page pageId (db s) = Some p
                /\ pages_retrieve pageId s = (Ok p, next_request s)).
Proof.
  unfold pages_retrieve.
  match goal with |- context [request ?serve s] =>
    destruct (request_cases serve s) as [[e He]|Hserved] end.
  - left. exists e. exact He.
  - rewrite Hserved. simpl. destruct (find_page pageId (db s)) as [p|] eqn:Hfind.
    + right. exists p. split; reflexivity.
    + left. eexists. reflexivity.
Qed.




Section AfterUploadFaults.

Variable toLocaleString : option Z -> string.
Variable show_number : option Q -> string.


End AfterUploadFaults.

End Writes.

(** * Further properties: the selection of the next record *)

Section Selection.
Import Notion FetchVideos.

Local Arguments Js.substring0 : simpl never.



Lemma insert_sorted_length (p : page) (l : list page) :
  List.length (insert_sorted p l) = S (List.length l).
Proof.
  induction l as [|q rest IH]; cbn [insert_sorted]; [reflexivity|].
  destruct (String.leb (sort_key p) (sort_key q)); cbn [List.length]; [reflexivity|].
  rewrite IH. reflexivity.
Qed.



Lemma includes_cross :
  Js.includes "❌" "❌ Título não pode estar vazio" = true
  /\ Js.includes "❌" "⚠️ Título muito longo (será truncado)" = false
  /\ Js.includes "❌" "❌ Link do Drive é obrigatório" = true
  /\ Js.includes "❌" "⚠️ Link não parece ser do Google Drive" = false
  /\ Js.includes "❌" "⚠️ Descrição muito longa (será truncada)" = false.
Proof. repeat split; vm_compute; reflexivity. Qed.

Lemma processVideoData_isValid (p : page) :
  isValid (processVideoData p)
  = Js.truthy (title (processVideoData p)) && Js.truthy (driveLink (processVideoData p)).
Proof.
  destruct includes_cross as (H1 & H2 & H3 & H4 & H5).
  unfold processVideoData. cbn [isValid title driveLink].
  set (title0 := extractPlainText (segments_of "Video Title" p)).
  set (description0 := extractPlainText (segments_of "Video Description" p)).
  set (link := or_else (url_of "Drive Link" p) EmptyString).
  assert (Htitle : Js.truthy (if (100 <? String.length title0)%nat
                              then Js.substring0 100 title0 else title0)
                   = Js.truthy title0).
  { destruct (100 <? String.length title0)%nat; [|reflexivity].
    destruct title0; reflexivity. }
  rewrite Htitle.
  destruct (Js.truthy title0), (100 <? String.length title0)%nat, (Js.truthy link),
    (Js.includes "drive.google.com" link), (4500 <? String.length description0)%nat;
    cbn [negb andb app existsb]; rewrite ?H1, ?H2, ?H3, ?H4, ?H5; reflexivity.
Qed.

Lemma processVideoData_lengths (p : page) :
  (String.length (title (processVideoData p)) <= 100)%nat
  /\ (String.length (description (processVideoData p)) <= 4500)%nat.
Proof.
  unfold processVideoData. cbn [title description].
  set (title0 := extractPlainText (segments_of "Video Title" p)).
  set (description0 := extractPlainText (segments_of "Video Description" p)).
  split.
  - destruct (100 <? String.length title0)%nat eqn:Hlong.
    + rewrite substring0_length. lia.
    + apply Nat.ltb_ge in Hlong. exact Hlong.
  - destruct (4500 <? String.length description0)%nat eqn:Hlong.
    + rewrite substring0_length. lia.
    + apply Nat.ltb_ge in Hlong. exact Hlong.
Qed.










End Selection.

(** * Further properties: the order of a run *)

Section Runs.
Import Notion RunPipeline Plan.

Lemma process_video_started (runCommand : process) (o : pipeline_options)
    (page : string) (log : list (list string)) (sys : system) :
  let r := process_video runCommand o page log sys in
  exists tail,
    started r = log ++ tail
    /\ tail `prefix_of` transfers o page
    /\ (pipeline_success (returned r) = true ->
        tail = transfers o page /\ temp_video_data (final r) = None).
Proof.
  unfold process_video, transfers, step, finish.
  destruct (preview o); cbn [negb].
  { exists []. rewrite app_nil_r. cbn. split; [reflexivity|]. split; [reflexivity|auto]. }
  destruct (runCommand [ "node"; "2downloadvideo.js"; page ] sys) as [[[|]|e] sys1];
    cbn [started returned final pipeline_success failed_at crashed];
    try (exists [ [ "node"; "2downloadvideo.js"; page ] ];
         split; [reflexivity|]; split; [apply prefix_cons, prefix_nil|discriminate]).
  destruct (runCommand [ "node"; "3uploadyoutube.js"; page ] sys1) as [[[|]|e] sys2];
    cbn [started returned final pipeline_success failed_at crashed];
    try (exists [ [ "node"; "2downloadvideo.js"; page ]; [ "node"; "3uploadyoutube.js"; page ] ];
         split; [rewrite <- app_assoc; reflexivity|];
         split; [do 2 apply prefix_cons; apply prefix_nil|discriminate]).
  destruct (runCommand [ "node"; "4updatenotion.js"; page ] sys2) as [[[|]|e] sys3];
    cbn [started returned final pipeline_success failed_at crashed finished];
    exists [ [ "node"; "2downloadvideo.js"; page ]; [ "node"; "3uploadyoutube.js"; page ];
             [ "node"; "4updatenotion.js"; page ] ];
    (split; [rewrite <- !app_assoc; reflexivity|]);
    (split; [reflexivity|]); try discriminate.
  intros _. split; reflexivity.
Qed.

Lemma select_video_started (runCommand : process) (o : pipeline_options)
    (log : list (list string)) (sys : system) :
  let r := select_video runCommand o log sys in
  exists page tail,
    started r = log ++ tail
    /\ tail `prefix_of` [ "node"; "1fetchvideos.js" ] :: transfers o page
    /\ (pipeline_success (returned r) = true ->
        tail = [ "node"; "1fetchvideos.js" ] :: transfers o page
        /\ temp_video_data (final r) = None)
    /\ (forall argv, argv ∈ tail -> argv <> [ "node"; "1fetchvideos.js" ] ->
        exists sys1 t, runCommand [ "node"; "1fetchvideos.js" ] sys = (Ok true, sys1)
                       /\ temp_video_data sys1 = Some t
                       /\ page = FetchVideos.temp_pageId t
                       /\ argv ∈ transfers o page).
Proof.
  unfold select_video, step.
  assert (Honly : forall argv : list string,
             argv ∈ [ [ "node"; "1fetchvideos.js" ] ] ->
             argv <> [ "node"; "1fetchvideos.js" ] -> False).
  { intros argv Hin Hne. apply list_elem_of_singleton in Hin. contradiction. }
  destruct (runCommand [ "node"; "1fetchvideos.js" ] sys) as [[[|]|e] sys1] eqn:Hfetch;
    cbn [started returned final pipeline_success failed_at crashed];
    try (exists EmptyString, [ [ "node"; "1fetchvideos.js" ] ];
         split; [reflexivity|]; split; [apply prefix_cons, prefix_nil|];
         split; [discriminate|]; intros argv Hin Hne; destruct (Honly argv Hin Hne)).
  destruct (temp_video_data sys1) as [t|] eqn:Htemp;
    cbn [started returned final pipeline_success failed_at];
    try (exists EmptyString, [ [ "node"; "1fetchvideos.js" ] ];
         split; [reflexivity|]; split; [apply prefix_cons, prefix_nil|];
         split; [discriminate|]; intros argv Hin Hne; destruct (Honly argv Hin Hne)).
  destruct (Js.truthy (FetchVideos.temp_pageId t));
    cbn [started returned final pipeline_success failed_at];
    try (exists EmptyString, [ [ "node"; "1fetchvideos.js" ] ];
         split; [reflexivity|]; split; [apply prefix_cons, prefix_nil|];
         split; [discriminate|]; intros argv Hin Hne; destruct (Honly argv Hin Hne)).
  destruct (process_video_started runCommand o (FetchVideos.temp_pageId t)
              (log ++ [ [ "node"; "1fetchvideos.js" ] ]) sys1)
    as (tail & Hstarted & Hprefix & Hdone).
  exists (FetchVideos.temp_pageId t), ([ "node"; "1fetchvideos.js" ] :: tail).
  split; [rewrite Hstarted, <- app_assoc; reflexivity|].
  split; [apply prefix_cons, Hprefix|].
  split.
  - intros Hok. destruct (Hdone Hok) as [-> Hnone]. split; [reflexivity|exact Hnone].
  - intros argv Hin Hne. apply elem_of_cons in Hin as [->|Hin]; [contradiction|].
    exists sys1, t. split; [reflexivity|]. split; [exact Htemp|]. split; [reflexivity|].
    destruct Hprefix as [k ->]. apply elem_of_app. left. exact Hin.
Qed.

(** X18.  Whatever the scripts do, a run starts its commands in the order
    sync (unless disabled), fetch, download, upload, update, each at most
    once and the last three for one and the same page; it stops at the
    first command that does not exit with 0, and reports success only
    after the whole sequence ran, the hand-over file being removed then.
    The options [maxVideos] and [quiet] change nothing: one record at
    most is processed per run. *)
Theorem runPipeline_follows_the_plan
    (runCommand : process) (o : pipeline_options) (sys : system) :
  let r := runPipeline runCommand o sys in
  (exists page,
     started r `prefix_of` plan o page
     /\ (pipeline_success (returned r) = true ->
         started r = plan o page /\ temp_video_data (final r) = None))
  /\ forall o', sync o' = sync o -> preview o' = preview o ->
                runPipeline runCommand o' sys = r.
Proof.
  cbn zeta. split.
  - unfold runPipeline, plan. destruct (sync o).
    + unfold step.
      destruct (runCommand [ "node"; "5syncgdrive.js" ] sys) as [[[|]|e] sys1];
        cbn [started returned final pipeline_success failed_at crashed];
        try (exists EmptyString; split; [apply prefix_cons, prefix_nil|discriminate]).
      destruct (select_video_started runCommand o ([] ++ [ [ "node"; "5syncgdrive.js" ] ]) sys1)
        as (page & tail & Hstarted & Hprefix & Hdone & _).
      exists page. rewrite Hstarted. cbn [app].
      split; [apply prefix_cons, Hprefix|].
      intros Hok. destruct (Hdone Hok) as [-> Hnone]. split; [reflexivity|exact Hnone].
    + destruct (select_video_started runCommand o [] sys)
        as (page & tail & Hstarted & Hprefix & Hdone & _).
      exists page. rewrite Hstarted. cbn [app]. split; [exact Hprefix|].
      intros Hok. destruct (Hdone Hok) as [-> Hnone]. split; [reflexivity|exact Hnone].
  - intros o' Hsync Hpreview.
    unfold runPipeline, select_video, process_video. rewrite Hsync, Hpreview. reflexivity.
Qed.



End Runs.

(** * Further properties: the download script *)

Section Reversal.

Lemma append_assoc (a b c : string) : (a +:+ b) +:+ c = a +:+ b +:+ c.
Proof. induction a as [|x a IH]; [reflexivity|]. rewrite !append_cons, IH. reflexivity. Qed.

Lemma rev_onto_append (s acc : string) : Js.rev_onto s acc = Js.rev s +:+ acc.
Proof.
  unfold Js.rev. revert acc. induction s as [|c s IH]; intros acc; cbn [Js.rev_onto].
  - reflexivity.
  - rewrite IH, (IH (String c EmptyString)).
    rewrite append_assoc. reflexivity.
Qed.

Lemma rev_cons (c : ascii) (s : string) : Js.rev (String c s) = Js.rev s +:+ String c EmptyString.
Proof. unfold Js.rev at 1. cbn [Js.rev_onto]. apply rev_onto_append. Qed.

Lemma append_empty_r (s : string) : s +:+ EmptyString = s.
Proof. induction s as [|c s IH]; [reflexivity|]. rewrite append_cons, IH. reflexivity. Qed.

Lemma rev_append (a b : string) : Js.rev (a +:+ b) = Js.rev b +:+ Js.rev a.
Proof.
  induction a as [|c a IH].
  - rewrite append_nil. change (Js.rev EmptyString) with EmptyString.
    rewrite append_empty_r. reflexivity.
  - rewrite append_cons, !rev_cons, IH, append_assoc. reflexivity.
Qed.

Lemma rev_involutive (s : string) : Js.rev (Js.rev s) = s.
Proof.
  induction s as [|c s IH]; [reflexivity|].
  rewrite rev_cons, rev_append, IH. reflexivity.
Qed.

Lemma forall_chars_rev (p : ascii -> bool) (s : string) :
  Js.forall_chars p (Js.rev s) = Js.forall_chars p s.
Proof.
  induction s as [|c s IH]; [reflexivity|].
  rewrite rev_cons, forall_chars_app, IH. cbn [Js.forall_chars].
  rewrite andb_true_r, andb_comm. reflexivity.
Qed.

Lemma truthy_rev (s : string) : Js.truthy (Js.rev s) = Js.truthy s.
Proof.
  destruct s as [|c s]; [reflexivity|]. rewrite rev_cons.
  destruct (Js.rev s); reflexivity.
Qed.

Lemma take_while_whole (p : ascii -> bool) (s : string) :
  Js.forall_chars p s = true -> Js.take_while p s = s.
Proof.
  induction s as [|c s IH]; cbn [Js.forall_chars Js.take_while]; [reflexivity|].
  intros [-> H]%andb_prop. rewrite IH by exact H. reflexivity.
Qed.

Lemma drop_while_append (p : ascii -> bool) (a b : string) :
  Js.forall_chars p a = true -> Js.drop_while p (a +:+ b) = Js.drop_while p b.
Proof.
  induction a as [|c a IH]; [reflexivity|].
  cbn [Js.forall_chars]. intros [Hc H]%andb_prop.
  rewrite append_cons. cbn [Js.drop_while]. rewrite Hc. apply IH, H.
Qed.

Lemma forall_chars_impl (p q : ascii -> bool) (s : string) :
  (forall c, p c = true -> q c = true) ->
  Js.forall_chars p s = true -> Js.forall_chars q s = true.
Proof.
  intros Hpq. induction s as [|c s IH]; cbn [Js.forall_chars]; [reflexivity|].
  intros [Hc H]%andb_prop. rewrite (Hpq _ Hc), IH by exact H. reflexivity.
Qed.

(** The extension of a plain file name [base.ext]. *)
Lemma extname_base_ext (base ext : string) :
  Js.truthy base = true -> Js.truthy ext = true ->
  Js.forall_chars (fun c => negb (Path.is_slash c)) base = true ->
  Js.forall_chars Path.plain_char ext = true ->
  Path.basename (base +:+ String "." ext) = base +:+ String "." ext
  /\ Path.extname (base +:+ String "." ext) = String "." ext.
Proof.
  intros Hbase Hext Hnoslash Hplain.
  set (name := base +:+ String "." ext).
  assert (Hslash : Js.forall_chars (fun c => negb (Path.is_slash c)) ext = true).
  { eapply forall_chars_impl; [|exact Hplain]. intros c. unfold Path.plain_char, Path.is_slash.
    destruct (Js.eqb_ascii c "/"); [discriminate|reflexivity]. }
  assert (Hdot : Js.forall_chars (fun c => negb (Path.is_dot c)) ext = true).
  { eapply forall_chars_impl; [|exact Hplain]. intros c. unfold Path.plain_char, Path.is_dot.
    destruct (Js.eqb_ascii c "."); [rewrite orb_true_r; discriminate|reflexivity]. }
  assert (Hname : Js.forall_chars (fun c => negb (Path.is_slash c)) name = true).
  { unfold name. rewrite forall_chars_app. cbn [Js.forall_chars].
    rewrite Hnoslash, Hslash. reflexivity. }
  assert (Hback : Js.rev name = Js.rev ext +:+ String "." (Js.rev base)).
  { unfold name. rewrite rev_append, rev_cons, append_assoc. reflexivity. }
  assert (Hsegment : Path.basename name = name).
  { unfold Path.basename.
    assert (Hkeep : Js.drop_while Path.is_slash (Js.rev name) = Js.rev name).
    { pose proof Hname as Hrev. rewrite <- forall_chars_rev in Hrev.
      destruct (Js.rev name) as [|c rest]; [reflexivity|].
      cbn [Js.forall_chars] in Hrev. apply andb_prop in Hrev as [Hc _].
      cbn [Js.drop_while]. apply negb_true_iff in Hc. rewrite Hc. reflexivity. }
    rewrite Hkeep, take_while_whole by (rewrite forall_chars_rev; exact Hname).
    apply rev_involutive. }
  split; [exact Hsegment|].
  unfold Path.extname. rewrite Hsegment, Hback.
  rewrite drop_while_append by (rewrite forall_chars_rev; exact Hdot).
  cbn [Js.drop_while]. change (negb (Path.is_dot ".")) with false. cbn iota.
  rewrite truthy_rev, Hbase. cbn [negb orb].
  assert (Hne : String.eqb name ".." = false).
  { apply String.eqb_neq. intros Heq.
    apply (f_equal String.length) in Heq. unfold name in Heq.
    rewrite length_append in Heq. cbn [String.length] in Heq.
    destruct base; [discriminate|]. destruct ext; [discriminate|].
    cbn [String.length] in Heq. lia. }
  rewrite Hne.
  rewrite take_while_app;
    [|rewrite forall_chars_rev; exact Hdot|reflexivity].
  rewrite rev_involutive. reflexivity.
Qed.

Lemma id_char_plain (c : ascii) : Js.is_id_char c = true -> Path.plain_char c = true.
Proof.
  unfold Js.is_id_char, Path.plain_char, Js.is_lower, Js.is_upper, Js.is_digit, Js.eqb_ascii.
  destruct (Ascii.eqb_spec c "/") as [->|_]; [discriminate|].
  destruct (Ascii.eqb_spec c ".") as [->|_]; [discriminate|]. reflexivity.
Qed.

(** The name [downloadFromDrive] gives its file has the extension
    [.mp4]. *)
Lemma extname_of_download (fileId : string) :
  Js.forall_chars Js.is_id_char fileId = true ->
  Js.toLowerCase (Path.extname ("video_" +:+ fileId +:+ ".mp4")) = ".mp4".
Proof.
  intros Hchars.
  assert (Hplain : Js.forall_chars Path.plain_char fileId = true)
    by (eapply forall_chars_impl; [apply id_char_plain|exact Hchars]).
  change ("video_" +:+ fileId +:+ ".mp4")
    with ("video_" +:+ (fileId +:+ String "." "mp4")).
  rewrite <- append_assoc.
  destruct (extname_base_ext ("video_" +:+ fileId) "mp4") as [_ ->];
    try reflexivity.
  rewrite forall_chars_app. 
  replace (Js.forall_chars (fun c => negb (Path.is_slash c)) "video_") with true
    by reflexivity.
  eapply forall_chars_impl; [|exact Hplain]. intros c. unfold Path.plain_char, Path.is_slash.
  destruct (Js.eqb_ascii c "/"); [discriminate|reflexivity].
Qed.

End Reversal.

Section DownloadScript.
Import Notion DriveDownloader.

Variable tempDir : string.
Variable net : string -> attempt.
Variable machine : Download.directory.

(** X20.  A video that [processVideoData] read from a page passes the
    check of the download script exactly when [processVideoData] found it
    valid and the page has an identifier; and since its title and
    description were cut to 100 and 4500 characters, the two warnings
    about their length are never raised: only the warnings about the link
    and about the status remain. *)
Theorem fetched_video_passes_the_download_check (p : page) :
  let v := FetchVideos.processVideoData p in
  let check := Download.validateVideoData v in
  Download.isValid check = FetchVideos.isValid v && Js.truthy (page_id p)
  /\ Download.errorCount check = List.length (Download.errors check)
  /\ Download.warningCount check = List.length (Download.warnings check)
  /\ Download.warnings check
     = (if Js.truthy (FetchVideos.driveLink v)
           && negb (Js.includes "drive.google.com" (FetchVideos.driveLink v))
        then [ "⚠️ Link não parece ser do Google Drive" ] else [])
       ++ (if negb (String.eqb (FetchVideos.uploadStatus v) "Pending")
           then [ "⚠️ Status atual: " +:+ FetchVideos.uploadStatus v +:+ " (não é Pending)" ]
           else []).
Proof.
  cbn zeta.
  destruct (processVideoData_lengths p) as [Htitle Hdescription].
  apply Nat.ltb_ge in Htitle, Hdescription.
  unfold Download.validateVideoData.
  cbn [Download.isValid Download.errorCount Download.errors Download.warningCount
       Download.warnings].
  rewrite Htitle, Hdescription, !andb_false_r, processVideoData_isValid.
  split; [|split; [reflexivity|split; reflexivity]].
  replace (FetchVideos.pageId (FetchVideos.processVideoData p)) with (page_id p)
    by reflexivity.
  destruct (Js.truthy (page_id p)),
    (Js.truthy (FetchVideos.title (FetchVideos.processVideoData p))),
    (Js.truthy (FetchVideos.driveLink (FetchVideos.processVideoData p))); reflexivity.
Qed.

(** What a run of [downloadFromDrive] leaves, once the identifier is
    known. *)
Lemma downloadFromDrive_target (driveUrl fileId : string) (files : gmap string N) :
  extractFileIdFromUrl driveUrl = Ok fileId ->
  let name := "video_" +:+ fileId +:+ ".mp4" in
  let path := tempDir +:+ "/" +:+ name in
  let r := downloadFromDrive tempDir net driveUrl files in
  (forall p, p <> path -> disk r !! p = files !! p)
  /\ match outcome r with
     | Ok pl =>
         pl = {| filePath := path; fileName := name;
                 fileSize := fileSize pl; mimeType := "video/mp4" |}
         /\ disk r !! path = Some (fileSize pl) /\ fileSize pl <> 0%N
     | Throw _ => disk r !! path = None
     end.
Proof.
  intros Hid. cbn zeta. unfold downloadFromDrive. rewrite Hid.
  set (name := "video_" +:+ fileId +:+ ".mp4").
  set (path := tempDir +:+ "/" +:+ name).
  destruct (tryUrls_invariant net path name (downloadUrls fileId) (delete path files) [])
    as (Hframe & Hfile & _); [apply lookup_delete_eq|].
  split; [|exact Hfile].
  intros p Hp. rewrite Hframe by exact Hp. apply lookup_delete_ne. congruence.
Qed.

(** The check of a file that [downloadFromDrive] has just returned. *)
Lemma validateDownloadedFile_after_download (driveUrl : string) (files : gmap string N)
    (pl : payload) :
  outcome (downloadFromDrive tempDir net driveUrl files) = Ok pl ->
  Download.validateDownloadedFile pl (disk (downloadFromDrive tempDir net driveUrl files))
  = if (Download.maxVideoSize <? fileSize pl)%N
    then Download.InvalidFile
           ("❌ Arquivo muito grande: " +:+ pretty (fileSize pl)
            +:+ " bytes (máximo: 128GB)")
    else Download.ValidFile
           {| Download.valid_filePath := filePath pl;
              Download.valid_fileName := fileName pl;
              Download.valid_fileSize := fileSize pl;
              Download.valid_mimeType := "video/mp4";
              Download.valid_extension := ".mp4" |}.
Proof.
  intros Hok.
  destruct (extractFileIdFromUrl driveUrl) as [fileId|e] eqn:Hid.
  2: { revert Hok. unfold downloadFromDrive. rewrite Hid. discriminate. }
  destruct (downloadFromDrive_target _ _ files Hid) as [_ Hfile].
  rewrite Hok in Hfile. destruct Hfile as (Hpl & Hdisk & Hn).
  destruct (extracted_id_chars _ _ Hid) as [_ Hchars].
  unfold Download.validateDownloadedFile.
  remember (fileSize pl) as n eqn:Hsize. clear Hok. subst pl.
  cbn [filePath fileName mimeType fileSize]. rewrite Hdisk.
  destruct (n =? 0)%N eqn:Hz; [apply N.eqb_eq in Hz; contradiction|].
  rewrite (extname_of_download _ Hchars). reflexivity.
Qed.

(** X21.  A file that [downloadFromDrive] returned always passes
    [validateDownloadedFile] unless it is larger than 128 GB: it is on
    disk, it is not empty, and the validated object carries the path, the
    name and the size of the download, the type [video/mp4] and the
    extension [.mp4]. *)
Theorem downloaded_file_passes_validation (driveUrl : string) (files : gmap string N)
    (pl : payload) :
  let r := downloadFromDrive tempDir net driveUrl files in
  outcome r = Ok pl ->
  (fileSize pl <= Download.maxVideoSize)%N ->
  Download.validateDownloadedFile pl (disk r)
  = Download.ValidFile
      {| Download.valid_filePath := filePath pl;
         Download.valid_fileName := fileName pl;
         Download.valid_fileSize := fileSize pl;
         Download.valid_mimeType := "video/mp4";
         Download.valid_extension := ".mp4" |}
  /\ disk r !! filePath pl = Some (fileSize pl)
  /\ fileSize pl <> 0%N.
Proof.
  cbn zeta. intros Hok Hsize.
  rewrite (validateDownloadedFile_after_download _ _ _ Hok).
  destruct (Download.maxVideoSize <? fileSize pl)%N eqn:Hbig;
    [apply N.ltb_lt in Hbig; lia|].
  split; [reflexivity|].
  destruct (extractFileIdFromUrl driveUrl) as [fileId|e] eqn:Hid.
  2: { revert Hok. unfold downloadFromDrive. rewrite Hid. discriminate. }
  destruct (downloadFromDrive_target _ _ files Hid) as [_ Hfile].
  rewrite Hok in Hfile. destruct Hfile as (Hpl & Hdisk & Hn).
  split; [|exact Hn]. rewrite Hpl. cbn [filePath fileSize]. exact Hdisk.
Qed.

Lemma validated_id (driveLink fileId : string) :
  DownloadVideo.extractAndValidateDriveId driveLink = Ok fileId ->
  extractFileIdFromUrl driveLink = Ok fileId.
Proof.
  unfold DownloadVideo.extractAndValidateDriveId.
  destruct (extractFileIdFromUrl driveLink) as [found|e]; [|discriminate].
  destruct (negb (Js.truthy found) || (String.length found <? 20)%nat); [discriminate|].
  destruct (negb (DownloadVideo.validIdPattern found)); [discriminate|].
  intros [= ->]. reflexivity.
Qed.

Lemma cleanupTempFile_removes (path : string) (files : gmap string N) :
  DriveFiles.cleanupTempFile path files !! path = None.
Proof.
  unfold DriveFiles.cleanupTempFile.
  destruct (files !! path) eqn:H; [apply lookup_delete_eq|exact H].
Qed.

(** X22.  [downloadVideo] never throws and reports success exactly when
    it leaves the file.  It requests nothing and touches no file when the
    data is invalid, when the link yields no identifier of at least twenty
    characters, or when the directory cannot be prepared.  On success the
    validated file is on disk with the size reported, between one byte
    and 128 GB, with the extension [.mp4]; on a failure after these
    checks, the file of the record is not on disk. *)
Theorem downloadVideo_leaves_the_file_iff_it_succeeds
    (videoData : FetchVideos.video_data) (files : gmap string N) :
  let run := Download.downloadVideo tempDir net machine videoData files in
  let rep := Download.report run in
  ((Download.isValid (Download.validateVideoData videoData) = false
    \/ is_ok (DownloadVideo.extractAndValidateDriveId
                (FetchVideos.driveLink videoData)) = false
    \/ machine <> Download.Writable) ->
   Download.success rep = false /\ Download.fetched run = []
   /\ Download.files_after run = files)
  /\ (Download.success rep = true ->
      exists file,
        Download.downloadResult rep = Some file /\ Download.error rep = None
        /\ Download.files_after run !! Download.valid_filePath file
           = Some (Download.valid_fileSize file)
        /\ (0 < Download.valid_fileSize file <= Download.maxVideoSize)%N
        /\ Download.valid_extension file = ".mp4")
  /\ (Download.success rep = false ->
      Download.downloadResult rep = None
      /\ (exists e, Download.error rep = Some e)
      /\ forall fileId,
           Download.isValid (Download.validateVideoData videoData) = true ->
           DownloadVideo.extractAndValidateDriveId (FetchVideos.driveLink videoData)
           = Ok fileId ->
           machine = Download.Writable ->
           Download.files_after run
             !! (tempDir +:+ "/" +:+ "video_" +:+ fileId +:+ ".mp4") = None).
Proof.
  cbn zeta. unfold Download.downloadVideo.
  destruct (Download.isValid (Download.validateVideoData videoData)) eqn:Hvalid;
    cbn [negb].
  2: { cbn. split; [auto|]. split; [discriminate|]. intros _.
       split; [reflexivity|]. split; [eauto|]. discriminate. }
  destruct (DownloadVideo.extractAndValidateDriveId (FetchVideos.driveLink videoData))
    as [fileId|e] eqn:Hcheck.
  2: { cbn. split; [auto|]. split; [discriminate|]. intros _.
       split; [reflexivity|]. split; [eauto|]. discriminate. }
  pose proof (validated_id _ _ Hcheck) as Hid.
  unfold Download.prepareDownloadEnvironment.
  destruct machine as [|message|].
  2,3: cbn; (split; [auto|]); (split; [discriminate|]); intros _;
       (split; [reflexivity|]); (split; [eauto|]); discriminate.
  set (files1 := delete (tempDir +:+ "/" +:+ "test-write.tmp") files).
  destruct (downloadFromDrive_target _ _ files1 Hid) as [_ Hfile].
  pose proof (validateDownloadedFile_after_download
                (FetchVideos.driveLink videoData) files1) as Hcheck2.
  destruct (outcome (downloadFromDrive tempDir net (FetchVideos.driveLink videoData) files1))
    as [pl|e].
  - destruct Hfile as (Hpl & Hdisk & Hn). rewrite (Hcheck2 pl eq_refl).
    destruct (Download.maxVideoSize <? fileSize pl)%N eqn:Hbig;
      cbn [Download.report Download.failed Download.success Download.error
           Download.downloadResult Download.files_after Download.fetched].
    + split; [intros [H|[H|H]]; [discriminate H|discriminate H|contradiction]|].
      split; [discriminate|]. intros _. split; [reflexivity|]. split; [eauto|].
      intros fileId' _ [= <-] _. rewrite Hpl. cbn [filePath].
      apply cleanupTempFile_removes.
    + split; [intros [H|[H|H]]; [discriminate H|discriminate H|contradiction]|].
      split; [|discriminate]. intros _. eexists. split; [reflexivity|].
      split; [reflexivity|].
      cbn [Download.valid_filePath Download.valid_fileSize Download.valid_extension].
      split; [rewrite Hpl at 1; cbn [filePath]; exact Hdisk|].
      split; [|reflexivity]. apply N.ltb_ge in Hbig. lia.
  - cbn [Download.report Download.failed Download.success Download.error
         Download.downloadResult Download.files_after Download.fetched].
    split; [intros [H|[H|H]]; [discriminate H|discriminate H|contradiction]|].
    split; [discriminate|]. intros _. split; [reflexivity|]. split; [eauto|].
    intros fileId' _ [= <-] _. exact Hfile.
Qed.

(** X23.  The download script reads the record and changes none.  It
    exits with 0 only when the record was found and its file is on disk,
    not empty, under the name built from the identifier of the record's
    link; without a page identifier it exits with 1 at once. *)
Theorem download_script_exit_status
    (args : list string) (files : gmap string N) (s : state) :
  let run := Download.main tempDir net machine args files s in
  db run.2 = db s
  /\ (run.1.1 = true ->
      exists (pageId : string) (p : page) (fileId : string) (size : N),
        head args = Some pageId
        /\ find_page pageId (db s) = Some p
        /\ extractFileIdFromUrl (FetchVideos.driveLink (FetchVideos.processVideoData p))
           = Ok fileId
        /\ run.1.2 !! (tempDir +:+ "/" +:+ "video_" +:+ fileId +:+ ".mp4") = Some size
        /\ size <> 0%N)
  /\ (truthy_string (head args) = false -> run = (false, files, s)).
Proof.
  cbn zeta. unfold Download.main.
  destruct args as [|pageId rest]; cbn [head truthy_string].
  { split; [reflexivity|]. split; [discriminate|reflexivity]. }
  destruct (Js.truthy pageId) eqn:Hpage.
  2: { split; [reflexivity|]. split; [discriminate|reflexivity]. }
  unfold Download.downloadVideoById, FetchVideos.fetchVideoById, bind, ret.
  destruct (pages_retrieve_cases pageId s) as [[e ->]|(p & Hfind & ->)].
  { cbn. split; [reflexivity|]. split; discriminate. }
  cbn [fst snd]. split; [reflexivity|]. split; [|discriminate].
  intros Hok.
  set (v := FetchVideos.processVideoData p) in *.
  revert Hok. unfold Download.downloadVideo.
  destruct (Download.isValid (Download.validateVideoData v)); cbn [negb];
    [|discriminate].
  destruct (DownloadVideo.extractAndValidateDriveId (FetchVideos.driveLink v))
    as [fileId|e] eqn:Hcheck; [|discriminate].
  pose proof (validated_id _ _ Hcheck) as Hid.
  unfold Download.prepareDownloadEnvironment.
  destruct machine as [|message|]; [|discriminate..].
  set (files1 := delete (tempDir +:+ "/" +:+ "test-write.tmp") files).
  destruct (downloadFromDrive_target _ _ files1 Hid) as [_ Hfile].
  pose proof (validateDownloadedFile_after_download (FetchVideos.driveLink v) files1)
    as Hcheck2.
  destruct (outcome (downloadFromDrive tempDir net (FetchVideos.driveLink v) files1))
    as [pl|e]; [|discriminate].
  destruct Hfile as (Hpl & Hdisk & Hn). rewrite (Hcheck2 pl eq_refl).
  destruct (Download.maxVideoSize <? fileSize pl)%N; [discriminate|].
  intros _. exists pageId, p, fileId, (fileSize pl).
  split; [reflexivity|]. split; [exact Hfind|]. split; [exact Hid|].
  split; [exact Hdisk|exact Hn].
Qed.

End DownloadScript.

(** * Further properties: the statistics *)

Section Statistics.
Import Notion DatabaseStats.








End Statistics.

(** * Further properties: the environment *)

Section Variables.

Lemma missing_spec (required : list string) (env : gmap string string) (key : string) :
  key ∈ Environment.missing required env
  <-> key ∈ required /\ (env !! key = None \/ env !! key = Some EmptyString).
Proof.
  unfold Environment.missing. rewrite !list_elem_of_In, filter_In.
  unfold Notion.truthy_string.
  destruct (env !! key) as [[|c value]|]; cbn [Js.truthy negb];
    intuition (auto; discriminate).
Qed.

(** X25.  [validateEnvironment] of 5syncgdrive.js returns exactly when
    each of the six variables is set to a non-empty value; otherwise it
    throws, and its message lists, in the order of the list and separated
    by commas, the variables that are unset or empty, and no other. *)
Theorem validateEnvironment_names_what_is_missing (env : gmap string string) :
  let required :=
    [ "NOTION_TOKEN"; "NOTION_DATABASE_ID"; "GOOGLE_DRIVE_FOLDER_ID";
      "GOOGLE_CLIENT_ID"; "GOOGLE_CLIENT_SECRET"; "GOOGLE_REFRESH_TOKEN" ] in
  match Environment.validateEnvironment env with
  | Ok _ =>
      forall key, key ∈ required ->
                  exists value, env !! key = Some value /\ Js.truthy value = true
  | Throw e =>
      exists missing,
        e = "❌ Variáveis obrigatórias: " +:+ Js.join ", " missing
        /\ missing <> [] /\ sublist missing required
        /\ forall key, key ∈ missing
                       <-> key ∈ required
                           /\ (env !! key = None \/ env !! key = Some EmptyString)
  end.
Proof.
  intros required. unfold Environment.validateEnvironment. fold required.
  destruct (Environment.missing required env) as [|first others] eqn:Hmissing;
    cbn [List.length Nat.ltb Nat.leb].
  - intros key Hkey.
    assert (Hnot : key ∉ Environment.missing required env)
      by (rewrite Hmissing; apply not_elem_of_nil).
    rewrite missing_spec in Hnot.
    destruct (env !! key) as [[|c value]|].
    + exfalso. apply Hnot. auto.
    + eexists. split; reflexivity.
    + exfalso. apply Hnot. auto.
  - exists (first :: others). split; [reflexivity|]. split; [discriminate|].
    rewrite <- Hmissing. split; [apply filter_sublist|]. intros key. apply missing_spec.
Qed.

End Variables.

(** * Further properties: the upload script *)

Section UploadScript.
Import Notion DriveDownloader.

Variable tempDir : string.
Variable net : string -> attempt.
Variable machine : Download.directory.
Variable uploadToYouTubeComplete :
  FetchVideos.video_data -> string -> gmap string N -> upload_result.

Lemma basename_in_directory (dir name : string) :
  Js.truthy name = true ->
  Js.forall_chars (fun c => negb (Path.is_slash c)) name = true ->
  Path.basename (dir +:+ "/" +:+ name) = name.
Proof.
  intros Hne Hname. unfold Path.basename.
  change (dir +:+ "/" +:+ name) with (dir +:+ String "/" name).
  rewrite rev_append, rev_cons, append_assoc, append_cons, append_nil.
  assert (Hrev : Js.forall_chars (fun c => negb (Path.is_slash c)) (Js.rev name) = true)
    by (rewrite forall_chars_rev; exact Hname).
  assert (Hkeep : forall tail, Js.drop_while Path.is_slash (Js.rev name +:+ tail)
                               = Js.rev name +:+ tail).
  { intros tail. pose proof (truthy_rev name) as Ht. rewrite Hne in Ht.
    destruct (Js.rev name) as [|c rest]; [discriminate|].
    cbn [Js.forall_chars] in Hrev. apply andb_prop in Hrev as [Hc _].
    rewrite append_cons. cbn [Js.drop_while]. apply negb_true_iff in Hc.
    rewrite Hc. reflexivity. }
  rewrite Hkeep, take_while_app; [apply rev_involutive|exact Hrev|reflexivity].
Qed.

(** X26.  The file of a download is judged differently by the two
    scripts: [validateVideoFile] of the upload script accepts it, with
    the extension [.mp4], exactly when it has between 1 MB and 128 GB,
    whereas [validateDownloadedFile] accepts every non-empty file up to
    128 GB.  A download of less than 1 MB passes the download script and
    is refused by the upload script. *)
Theorem downloaded_file_and_the_upload_check
    (driveUrl : string) (files : gmap string N) (pl : payload) :
  let r := downloadFromDrive tempDir net driveUrl files in
  outcome r = Ok pl ->
  UploadYoutube.validateVideoFile (filePath pl) (disk r)
  = (if (UploadYoutube.maxSize <? fileSize pl)%N
     then UploadYoutube.InvalidFile
            ("❌ Arquivo muito grande: " +:+ pretty (fileSize pl) +:+ " bytes")
     else if (fileSize pl <? UploadYoutube.minSize)%N
     then UploadYoutube.InvalidFile
            ("❌ Arquivo muito pequeno: " +:+ pretty (fileSize pl) +:+ " bytes")
     else UploadYoutube.ValidFile
            {| UploadYoutube.file_filePath := filePath pl;
               UploadYoutube.file_fileName := fileName pl;
               UploadYoutube.file_fileSize := fileSize pl;
               UploadYoutube.file_extension := ".mp4" |})
  /\ ((fileSize pl < UploadYoutube.minSize)%N ->
      exists file e,
        Download.validateDownloadedFile pl (disk r) = Download.ValidFile file
        /\ UploadYoutube.validateVideoFile (filePath pl) (disk r)
           = UploadYoutube.InvalidFile e).
Proof.
  cbn zeta. intros Hok.
  destruct (extractFileIdFromUrl driveUrl) as [fileId|e] eqn:Hid.
  2: { revert Hok. unfold downloadFromDrive. rewrite Hid. discriminate. }
  destruct (downloadFromDrive_target tempDir net _ _ files Hid) as [_ Hfile].
  pose proof (validateDownloadedFile_after_download tempDir net _ files _ Hok) as Hdl.
  rewrite Hok in Hfile. destruct Hfile as (Hpl & Hdisk & Hn).
  destruct (extracted_id_chars _ _ Hid) as [_ Hchars].
  assert (Hplain : Js.forall_chars (fun c => negb (Path.is_slash c))
                     ("video_" +:+ fileId +:+ ".mp4") = true).
  { rewrite !forall_chars_app.
    replace (Js.forall_chars (fun c => negb (Path.is_slash c)) "video_") with true
      by reflexivity.
    replace (Js.forall_chars (fun c => negb (Path.is_slash c)) ".mp4") with true
      by reflexivity.
    rewrite andb_true_r. cbn [andb].
    eapply forall_chars_impl; [|exact Hchars]. intros c Hc.
    apply id_char_plain in Hc. unfold Path.plain_char, Path.is_slash in *.
    destruct (Js.eqb_ascii c "/"); [discriminate|reflexivity]. }
  assert (Hcheck : UploadYoutube.validateVideoFile (filePath pl)
                     (disk (downloadFromDrive tempDir net driveUrl files))
                   = (if (UploadYoutube.maxSize <? fileSize pl)%N
                      then UploadYoutube.InvalidFile
                             ("❌ Arquivo muito grande: " +:+ pretty (fileSize pl)
                              +:+ " bytes")
                      else if (fileSize pl <? UploadYoutube.minSize)%N
                      then UploadYoutube.InvalidFile
                             ("❌ Arquivo muito pequeno: " +:+ pretty (fileSize pl)
                              +:+ " bytes")
                      else UploadYoutube.ValidFile
                             {| UploadYoutube.file_filePath := filePath pl;
                                UploadYoutube.file_fileName := fileName pl;
                                UploadYoutube.file_fileSize := fileSize pl;
                                UploadYoutube.file_extension := ".mp4" |})).
  { unfold UploadYoutube.validateVideoFile.
    remember (fileSize pl) as n eqn:Hsize. clear Hok Hdl. subst pl.
    cbn [filePath fileName fileSize]. rewrite Hdisk.
    rewrite basename_in_directory by (exact Hplain || reflexivity).
    rewrite (extname_of_download _ Hchars).
    replace (bool_decide (".mp4" ∈ UploadYoutube.supportedFormats)) with true
      by (symmetry; apply bool_decide_eq_true; left).
    reflexivity. }
  split; [exact Hcheck|].
  intros Hsmall. rewrite Hcheck, Hdl.
  assert (Hnotbig : (UploadYoutube.maxSize <? fileSize pl)%N = false).
  { apply N.ltb_ge. unfold UploadYoutube.minSize, UploadYoutube.maxSize in *. lia. }
  assert (Hnotbig' : (Download.maxVideoSize <? fileSize pl)%N = false).
  { apply N.ltb_ge. unfold UploadYoutube.minSize, Download.maxVideoSize in *. lia. }
  apply N.ltb_lt in Hsmall. rewrite Hnotbig, Hnotbig', Hsmall.
  eexists _, _. split; reflexivity.
Qed.

(** A served [markAsUploaded]. *)
Lemma markAsUploaded_served (pageId : string) (r : upload_result) (s : state) (p : page) :
  faults s = [] ->
  find_page pageId (db s) = Some p ->
  exists (p' : page) (s' : state),
    UpdateNotionUtil.markAsUploaded pageId r s = (Ok p', s')
    /\ faults s' = [] /\ now s' = now s
    /\ find_page pageId (db s') = Some p'
    /\ select_of "Upload Status" p' = Some "Uploaded"
    /\ date_of "Upload Date" p' = Some (now s).
Proof.
  intros Hquiet Hfind.
  unfold UpdateNotionUtil.markAsUploaded, UpdateNotionUtil.updateVideoStatus, bind, clock.
  rewrite (pages_update_served _ _ _ _ Hquiet Hfind).
  eexists _, _. split; [reflexivity|].
  split; [apply with_db_quiet, Hquiet|]. split; [reflexivity|].
  split; [apply find_page_patched; [intros q; reflexivity|exact Hfind]|].
  unfold select_of, date_of. rewrite !patched_lookup.
  cbn [UpdateNotionUtil.yt_videoUrl UpdateNotionUtil.yt_uploadDate default].
  destruct (if truthy_string (videoUrl r) then videoUrl r else url r) as [u|];
    [destruct (Js.truthy u)|]; split; reflexivity.
Qed.

(** X27.  Whenever [uploadVideoById] returns, the record has been marked
    [Uploaded], whatever the upload did: the outcome of
    [uploadToYouTubeComplete] is passed to [markAsUploaded] without a look
    at its [success].  So with a store that serves the requests, a run
    that returns leaves the record with status [Uploaded] and the time of
    the run as [Upload Date], also when the object it returns says that
    the upload failed. *)
Theorem uploadVideoById_marks_uploaded_whatever_the_upload
    (pageId : string) (filePath : option string) (files files' : gmap string N)
    (s s' : state) (result : UploadYoutube.final_result) :
  faults s = [] ->
  UploadYoutube.uploadVideoById tempDir net machine uploadToYouTubeComplete
    pageId filePath files s = (Ok result, files', s') ->
  UploadYoutube.final_success result = success (UploadYoutube.final_uploadResult result)
  /\ exists p', find_page pageId (db s') = Some p'
                /\ select_of "Upload Status" p' = Some "Uploaded"
                /\ date_of "Upload Date" p' = Some (now s).
Proof.
  intros Hquiet.
  assert (Hpublish : forall v path cleanup report files0 s0 p,
    faults s0 = [] -> now s0 = now s -> find_page pageId (db s0) = Some p ->
    UploadYoutube.publish uploadToYouTubeComplete pageId v path cleanup report files0 s0
    = (Ok result, files', s') ->
    UploadYoutube.final_success result = success (UploadYoutube.final_uploadResult result)
    /\ exists p', find_page pageId (db s') = Some p'
                  /\ select_of "Upload Status" p' = Some "Uploaded"
                  /\ date_of "Upload Date" p' = Some (now s)).
  { intros v path cleanup report files0 s0 p Hq Hnow Hfind.
    unfold UploadYoutube.publish, try_catch, bind.
    destruct (markAsUploaded_served pageId (uploadToYouTubeComplete v path files0) s0 p
                Hq Hfind) as (p' & s1 & -> & _ & _ & Hfind' & Hstatus & Hdate).
    unfold ret. cbn [snd]. intros [= <- _ <-].
    split; [reflexivity|]. exists p'. rewrite <- Hnow. auto. }
  unfold UploadYoutube.uploadVideoById, FetchVideos.fetchVideoById, bind, ret.
  destruct (pages_retrieve_cases pageId s) as [[e ->]|(p & Hfind & ->)];
    [discriminate|].
  destruct (truthy_string filePath).
  { apply (Hpublish _ _ _ _ _ _ p); [apply next_request_quiet, Hquiet|reflexivity|exact Hfind]. }
  unfold Download.downloadVideoById, FetchVideos.fetchVideoById, bind, ret.
  destruct (pages_retrieve_cases pageId (next_request s)) as [[e ->]|(p2 & Hfind2 & ->)];
    [discriminate|].
  destruct (negb (Download.success _)); [discriminate|].
  destruct (Download.downloadResult _) as [file|]; [|discriminate].
  apply (Hpublish _ _ _ _ _ _ p2);
    [apply next_request_quiet, next_request_quiet, Hquiet|reflexivity|exact Hfind2].
Qed.

(** A served [markAsError] of utils/update-notion.js. *)
Lemma util_markAsError_served (pageId message : string) (s : state) (p : page) :
  faults s = [] ->
  find_page pageId (db s) = Some p ->
  exists (p' : page) (s' : state),
    UpdateNotionUtil.markAsError pageId message s = (Ok tt, s')
    /\ find_page pageId (db s') = Some p'
    /\ select_of "Upload Status" p' = Some "Error"
    /\ date_of "Upload Date" p' = Some (now s).
Proof.
  intros Hquiet Hfind.
  unfold UpdateNotionUtil.markAsError, UpdateNotionUtil.updateVideoStatus,
    UpdateNotionUtil.addErrorLog, bind, try_catch, clock, ret.
  rewrite (pages_update_served _ _ _ _ Hquiet Hfind).
  set (patch := list_to_map [ ("Upload Status", Select "Error") ] : gmap string property).
  set (p1 := patched patch (now s) p).
  set (s1 := with_db (next_request s) _).
  assert (Hquiet1 : faults s1 = []) by (apply with_db_quiet, Hquiet).
  assert (Hfind1 : find_page pageId (db s1) = Some p1)
    by (apply (find_page_patched pageId (patched patch (now s)));
        [intros q; reflexivity|exact Hfind]).
  rewrite (pages_update_served _ _ _ _ Hquiet1 Hfind1).
  eexists _, _. split; [reflexivity|].
  split; [apply (find_page_patched pageId (patched _ (now s1)));
          [intros q; reflexivity|exact Hfind1]|].
  unfold select_of, date_of. rewrite !patched_lookup. split; reflexivity.
Qed.

(** X28.  When the download of the record fails, [uploadVideoById] does
    not return a failure object: it marks the record and then throws,
    because the [return] of its [catch] block reads a constant of the
    [try] block.  With a store that serves the requests the record is left
    with status [Error]; the files are as the download left them. *)
Theorem uploadVideoById_throws_when_the_download_fails
    (pageId : string) (files : gmap string N) (s : state) (p : page) :
  faults s = [] ->
  find_page pageId (db s) = Some p ->
  let download :=
    Download.downloadVideo tempDir net machine (FetchVideos.processVideoData p) files in
  Download.success (Download.report download) = false ->
  exists (s' : state) (p' : page),
    UploadYoutube.uploadVideoById tempDir net machine uploadToYouTubeComplete
      pageId None files s
    = (Throw "videoData is not defined", Download.files_after download, s')
    /\ find_page pageId (db s') = Some p'
    /\ select_of "Upload Status" p' = Some "Error"
    /\ date_of "Upload Date" p' = Some (now s).
Proof.
  intros Hquiet Hfind download Hfailed.
  unfold UploadYoutube.uploadVideoById, FetchVideos.fetchVideoById, bind, ret.
  rewrite (pages_retrieve_served _ _ _ Hquiet Hfind). cbn [truthy_string].
  unfold Download.downloadVideoById, FetchVideos.fetchVideoById, bind, ret.
  assert (Hquiet1 : faults (next_request s) = []) by (apply next_request_quiet, Hquiet).
  rewrite (pages_retrieve_served _ _ _ Hquiet1 Hfind).
  fold download. rewrite Hfailed. cbn [negb].
  unfold UploadYoutube.caught, try_catch.
  assert (Hquiet2 : faults (next_request (next_request s)) = [])
    by (apply next_request_quiet, Hquiet1).
  destruct (util_markAsError_served pageId
              ("Falha no download: "
               +:+ default "undefined" (Download.error (Download.report download)))
              (next_request (next_request s)) p Hquiet2 Hfind)
    as (p' & s' & -> & Hfind' & Hstatus & Hdate).
  exists s', p'. split; [reflexivity|]. auto.
Qed.

End UploadScript.

(** * Further statements at concrete inputs *)

Section MoreInstances.
Import Notion Scenario Cases.

(** Two interstitial pages, then the video. *)
Lemma downloadFromDrive_requests_in_order_witness :
  let r := DriveDownloader.downloadFromDrive tempDir third_delivers driveUrl ∅ in
  DriveDownloader.requested r `prefix_of` DriveDownloader.downloadUrls fileId
  /\ NoDup (DriveDownloader.requested r)
  /\ match DriveDownloader.outcome r with
     | Ok pl =>
         exists pre u, DriveDownloader.requested r = pre ++ [u]
                       /\ DriveDownloader.streams (third_delivers u)
                            (DriveDownloader.fileSize pl) = true
                       /\ Forall (fun v => DriveDownloader.fails (third_delivers v) = true) pre
     | Throw _ =>
         DriveDownloader.requested r = DriveDownloader.downloadUrls fileId
         /\ Forall (fun v => DriveDownloader.fails (third_delivers v) = true)
                   (DriveDownloader.downloadUrls fileId)
     end.
Proof.
  apply (downloadFromDrive_requests_in_order tempDir third_delivers driveUrl fileId ∅).
  reflexivity.
Defined.


(** One new file, registered. *)
Lemma syncVideos_summary_adds_up_witness :
  let r := {| SyncGdrive.added := 1; SyncGdrive.skipped := 0;
              SyncGdrive.errors := 0; SyncGdrive.total := Some 1%nat |} in
  let s' := (SyncGdrive.syncVideos (Ok [ sermon1 ]) SyncGdrive.default_options
               empty_service).2 in
  (SyncGdrive.added r + SyncGdrive.errors r + SyncGdrive.skipped r
   <= List.length [ sermon1 ])%nat
  /\ (SyncGdrive.limit SyncGdrive.default_options = None ->
      (SyncGdrive.added r + SyncGdrive.errors r + SyncGdrive.skipped r)%nat
      = List.length [ sermon1 ])
  /\ (SyncGdrive.dryRun SyncGdrive.default_options = false ->
      exists created, db s' = db empty_service ++ created
                      /\ List.length created = SyncGdrive.added r)
  /\ (SyncGdrive.total r = None \/ SyncGdrive.total r = Some (List.length [ sermon1 ])).
Proof.
  apply (syncVideos_summary_adds_up [ sermon1 ] SyncGdrive.default_options empty_service).
  vm_compute. reflexivity.
Defined.

(** A forced pass over a file that has its record already. *)
Lemma force_registers_every_file_witness :
  exists (r : SyncGdrive.summary) (s' : state) (created : list page),
    SyncGdrive.syncVideos (Ok [ sermon1 ]) forced_pass (service_of [ page_for 0 sermon1 ])
    = (Ok r, s')
    /\ SyncGdrive.added r = List.length [ sermon1 ]
    /\ SyncGdrive.skipped r = 0%nat /\ SyncGdrive.errors r = 0%nat
    /\ db s' = db (service_of [ page_for 0 sermon1 ]) ++ created
    /\ Forall2 SyncGdrive.page_of (List.map SyncGdrive.processVideo [ sermon1 ]) created.
Proof.
  apply (force_registers_every_file [ sermon1 ] forced_pass
           (service_of [ page_for 0 sermon1 ])); reflexivity.
Defined.

(** Two new files and a limit of one. *)
Lemma positive_limit_caps_the_pass_witness :
  let r := {| SyncGdrive.added := 1; SyncGdrive.skipped := 0;
              SyncGdrive.errors := 0; SyncGdrive.total := Some 2%nat |} in
  let s' := (SyncGdrive.syncVideos (Ok two_files) one_per_pass empty_service).2 in
  (SyncGdrive.added r + SyncGdrive.errors r <= Z.to_nat 1)%nat
  /\ (List.length (db s') <= List.length (db empty_service) + Z.to_nat 1)%nat.
Proof.
  apply (positive_limit_caps_the_pass two_files one_per_pass empty_service).
  - reflexivity.
  - lia.
  - vm_compute. reflexivity.
Defined.





(** The video of ten megabytes. *)
Lemma downloaded_file_passes_validation_witness :
  let r := DriveDownloader.downloadFromDrive tempDir third_delivers driveUrl ∅ in
  let pl := {| DriveDownloader.filePath := "/app/temp/video_1AbC_dEf-0123456789xyzXYZ.mp4";
               DriveDownloader.fileName := "video_1AbC_dEf-0123456789xyzXYZ.mp4";
               DriveDownloader.fileSize := 10485760;
               DriveDownloader.mimeType := "video/mp4" |} in
  Download.validateDownloadedFile pl (DriveDownloader.disk r)
  = Download.ValidFile
      {| Download.valid_filePath := DriveDownloader.filePath pl;
         Download.valid_fileName := DriveDownloader.fileName pl;
         Download.valid_fileSize := DriveDownloader.fileSize pl;
         Download.valid_mimeType := "video/mp4";
         Download.valid_extension := ".mp4" |}
  /\ DriveDownloader.disk r !! DriveDownloader.filePath pl
     = Some (DriveDownloader.fileSize pl)
  /\ DriveDownloader.fileSize pl <> 0%N.
Proof.
  apply (downloaded_file_passes_validation tempDir third_delivers driveUrl ∅).
  - reflexivity.
  - vm_compute. discriminate.
Defined.


(** A download of two kilobytes. *)
Lemma downloaded_file_and_the_upload_check_witness :
  let r := DriveDownloader.downloadFromDrive tempDir small_delivers driveUrl ∅ in
  let pl := {| DriveDownloader.filePath := "/app/temp/video_1AbC_dEf-0123456789xyzXYZ.mp4";
               DriveDownloader.fileName := "video_1AbC_dEf-0123456789xyzXYZ.mp4";
               DriveDownloader.fileSize := 2048;
               DriveDownloader.mimeType := "video/mp4" |} in
  UploadYoutube.validateVideoFile (DriveDownloader.filePath pl) (DriveDownloader.disk r)
  = (if (UploadYoutube.maxSize <? DriveDownloader.fileSize pl)%N
     then UploadYoutube.InvalidFile
            ("❌ Arquivo muito grande: " +:+ pretty (DriveDownloader.fileSize pl)
             +:+ " bytes")
     else if (DriveDownloader.fileSize pl <? UploadYoutube.minSize)%N
     then UploadYoutube.InvalidFile
            ("❌ Arquivo muito pequeno: " +:+ pretty (DriveDownloader.fileSize pl)
             +:+ " bytes")
     else UploadYoutube.ValidFile
            {| UploadYoutube.file_filePath := DriveDownloader.filePath pl;
               UploadYoutube.file_fileName := DriveDownloader.fileName pl;
               UploadYoutube.file_fileSize := DriveDownloader.fileSize pl;
               UploadYoutube.file_extension := ".mp4" |})
  /\ ((DriveDownloader.fileSize pl < UploadYoutube.minSize)%N ->
      exists file e,
        Download.validateDownloadedFile pl (DriveDownloader.disk r)
        = Download.ValidFile file
        /\ UploadYoutube.validateVideoFile (DriveDownloader.filePath pl)
             (DriveDownloader.disk r)
           = UploadYoutube.InvalidFile e).
Proof.
  apply (downloaded_file_and_the_upload_check tempDir small_delivers driveUrl ∅).
  reflexivity.
Defined.

(** A failed upload of a file that is at hand: the run returns a failure
    and the record reads [Uploaded]. *)
Lemma uploadVideoById_marks_uploaded_whatever_the_upload_witness :
  let s := service_of [ pending_page ] in
  let run := UploadYoutube.uploadVideoById tempDir third_delivers Download.Writable
               upload_fails "page-7" (Some "/app/videos/sermon7.mp4") ∅ s in
  let result :=
    {| UploadYoutube.final_success := false;
       UploadYoutube.final_pageId := "page-7";
       UploadYoutube.final_videoData := FetchVideos.processVideoData pending_page;
       UploadYoutube.final_uploadResult := failed_outcome;
       UploadYoutube.final_downloadResult := None |} in
  UploadYoutube.final_success result = success (UploadYoutube.final_uploadResult result)
  /\ exists p', find_page "page-7" (db run.2) = Some p'
                /\ select_of "Upload Status" p' = Some "Uploaded"
                /\ date_of "Upload Date" p' = Some (now s).
Proof.
  apply (uploadVideoById_marks_uploaded_whatever_the_upload tempDir third_delivers
           Download.Writable upload_fails "page-7" (Some "/app/videos/sermon7.mp4") ∅ ∅
           (service_of [ pending_page ])).
  - reflexivity.
  - vm_compute. reflexivity.
Defined.

(** A record whose link carries a short identifier: the download is
    refused, the record is marked and the function throws. *)
Lemma uploadVideoById_throws_when_the_download_fails_witness :
  let s := service_of [ retried_page ] in
  let download :=
    Download.downloadVideo tempDir third_delivers Download.Writable
      (FetchVideos.processVideoData retried_page) ∅ in
  exists (s' : state) (p' : page),
    UploadYoutube.uploadVideoById tempDir third_delivers Download.Writable upload_fails
      "page-0" None ∅ s
    = (Throw "videoData is not defined", Download.files_after download, s')
    /\ find_page "page-0" (db s') = Some p'
    /\ select_of "Upload Status" p' = Some "Error"
    /\ date_of "Upload Date" p' = Some (now s).
Proof.
  apply (uploadVideoById_throws_when_the_download_fails tempDir third_delivers
           Download.Writable upload_fails "page-0" ∅ (service_of [ retried_page ])
           retried_page); reflexivity.
Defined.

End MoreInstances.
